(** * AI interview backend: résumé field heuristics, structured-response
      decoder and HTTP handlers

    Shallow embedding of the two server variants of the repository,
    [src/index.js] (module [Index]) and [src/unnamed/part_000] (module
    [Part000]), together with the JavaScript and Node built-ins they
    call (the runtime sections that come first).

    Conventions.
    - A JavaScript string is a list of UTF-16 code units ([jsstring]).
    - A regular expression literal is a value of [regex]; [rmatch] is the
      backtracking matcher of ECMAScript (leftmost start, alternatives in
      order, greedy quantifiers).
    - An exception is the [Throw] constructor of [completion].
    - The file system, the document decoders and the generative model are
      external: the first is a finite map from paths to contents, the
      others are fields of [platform]. *)

From Stdlib Require Import String Ascii List ZArith NArith Lia Bool Arith.
From stdpp Require Import base option list gmap.
Import ListNotations.

#[local] Set Warnings "-register-all,-abstract-large-number".

Local Open Scope N_scope.
Local Open Scope nat_scope.
Local Open Scope list_scope.

(* ===================================================================== *)
(** ** JavaScript runtime: strings                                        *)
(* ===================================================================== *)

(** A UTF-16 code unit, and a string of them. *)
Abbreviation cu := N (only parsing).
Abbreviation jsstring := (list N) (only parsing).

(** An ASCII literal as a JavaScript string. *)
Definition js (s : string) : jsstring :=
  map N_of_ascii (list_ascii_of_string s).

Definition LF : cu := 10%N.
Definition CR : cu := 13%N.
Definition SP : cu := 32%N.
Definition DQ : cu := 34%N.

(** [quoted s] is [s] between two double quotes. *)
Definition quoted (s : jsstring) : jsstring := DQ :: s ++ [DQ].

Definition in_range (lo hi c : cu) : bool := (lo <=? c)%N && (c <=? hi)%N.
Arguments in_range (lo hi c)%_N.

(** WhiteSpace and LineTerminator of ECMAScript: what [\s] matches and
    what [String.prototype.trim] strips. *)
Definition is_space (c : cu) : bool :=
  in_range 9 13 c || (c =? 32)%N || (c =? 160)%N || (c =? 5760)%N
  || in_range 8192 8202 c || (c =? 8232)%N || (c =? 8233)%N
  || (c =? 8239)%N || (c =? 8287)%N || (c =? 12288)%N || (c =? 65279)%N.

Definition is_digit (c : cu) : bool := in_range 48 57 c.
Definition is_upper (c : cu) : bool := in_range 65 90 c.
Definition is_lower (c : cu) : bool := in_range 97 122 c.
Definition is_letter (c : cu) : bool := is_upper c || is_lower c.

(** Case mapping of the letters A-Z and a-z; a code unit outside these
    ranges is left as it is.  That is all the source depends on: it lowers
    a file extension to compare it with .pdf and .docx, and apart from A-Z
    only U+212A and U+0130 lower to a text with an ASCII letter (k and i),
    neither of which these extensions hold; and the matcher, without the
    [u] flag, never canonicalises a code unit above 127 to one below. *)
Definition to_lower (c : cu) : cu := if is_upper c then (c + 32)%N else c.
Definition to_upper (c : cu) : cu := if is_lower c then (c - 32)%N else c.

Definition toLowerCase (s : jsstring) : jsstring := map to_lower s.

Definition cu_eqb (a b : cu) : bool := (a =? b)%N.

Fixpoint str_eqb (a b : jsstring) : bool :=
  match a, b with
  | [], [] => true
  | x :: a', y :: b' => cu_eqb x y && str_eqb a' b'
  | _, _ => false
  end.

Fixpoint starts_with (p s : jsstring) : bool :=
  match p, s with
  | [], _ => true
  | x :: p', y :: s' => cu_eqb x y && starts_with p' s'
  | _ :: _, [] => false
  end.

(** [String.prototype.trim]. *)
Fixpoint trimStart (s : jsstring) : jsstring :=
  match s with
  | c :: s' => if is_space c then trimStart s' else s
  | [] => []
  end.

Definition trimEnd (s : jsstring) : jsstring := rev (trimStart (rev s)).

Definition trim (s : jsstring) : jsstring := trimEnd (trimStart s).

(** [String.prototype.split] with a non-empty string separator.  [skip]
    counts the code units of a separator still to be passed, [cur] is the
    current piece, reversed. *)
Fixpoint split_str_go (sep : jsstring) (skip : nat) (cur s : jsstring)
  : list jsstring :=
  match s with
  | [] => [rev cur]
  | c :: s' =>
      match skip with
      | S n => split_str_go sep n cur s'
      | O =>
          if starts_with sep s
          then rev cur :: split_str_go sep (length sep - 1) [] s'
          else split_str_go sep 0 (c :: cur) s'
      end
  end.

Definition split_str (sep s : jsstring) : list jsstring :=
  split_str_go sep 0 [] s.

(** [Array.prototype.filter(Boolean)] on strings: the empty string is the
    only falsy one. *)
Definition nonempty (s : jsstring) : bool :=
  match s with [] => false | _ => true end.

(* ===================================================================== *)
(** ** JavaScript runtime: regular expressions                            *)
(* ===================================================================== *)

(** Members of a character class. *)
Inductive citem :=
| CChar (c : cu)            (* a literal code unit *)
| CRange (lo hi : cu)       (* lo-hi *)
| CSpace                    (* \s *)
| CNotSpace                 (* \S *)
| CDigit.                   (* \d *)
Arguments CChar c%_N.
Arguments CRange (lo hi)%_N.

(** Patterns, without captures (the source only reads [match[0]]). *)
Inductive regex :=
| REmpty
| RSet (items : list citem)
| RSeq (r1 r2 : regex)
| RAlt (r1 r2 : regex)
| RStar (r : regex).

Definition item_test (ic : bool) (it : citem) (c : cu) : bool :=
  match it with
  | CChar x => if ic then cu_eqb (to_upper x) (to_upper c) else cu_eqb x c
  | CRange lo hi =>
      in_range lo hi c
      || (ic && (in_range lo hi (to_upper c) || in_range lo hi (to_lower c)))
  | CSpace => is_space c
  | CNotSpace => negb (is_space c)
  | CDigit => is_digit c
  end.

(** [ic] is the [i] flag. *)
Definition set_test (ic : bool) (items : list citem) (c : cu) : bool :=
  existsb (fun it => item_test ic it c) items.

(** Greedy iteration.  An iteration that consumes nothing is rejected, as
    in ECMAScript's RepeatMatcher, so [S (length s)] rounds are enough. *)
Fixpoint star_loop (step : jsstring -> (jsstring -> option jsstring) -> option jsstring)
    (fuel : nat) (s : jsstring) (k : jsstring -> option jsstring)
  : option jsstring :=
  match fuel with
  | O => k s
  | S f =>
      match step s (fun s' => if length s' <? length s
                              then star_loop step f s' k else None) with
      | Some x => Some x
      | None => k s
      end
  end.

(** Backtracking matcher in continuation-passing style: [rmatch ic r s k]
    matches [r] at the head of [s] and hands the rest to [k]; the result
    is what is left of [s] after the whole match. *)
Fixpoint rmatch (ic : bool) (r : regex) (s : jsstring)
    (k : jsstring -> option jsstring) {struct r} : option jsstring :=
  match r with
  | REmpty => k s
  | RSet items =>
      match s with
      | c :: s' => if set_test ic items c then k s' else None
      | [] => None
      end
  | RSeq r1 r2 => rmatch ic r1 s (fun s' => rmatch ic r2 s' k)
  | RAlt r1 r2 =>
      match rmatch ic r1 s k with
      | Some x => Some x
      | None => rmatch ic r2 s k
      end
  | RStar r1 => star_loop (rmatch ic r1) (S (length s)) s k
  end.

(** Quantifiers and literals of the surface syntax. *)
Definition rchar (c : cu) : regex := RSet [CChar c].
Arguments rchar c%_N.
Definition rplus (r : regex) : regex := RSeq r (RStar r).            (* r+ *)
Definition ropt (r : regex) : regex := RAlt r REmpty.                (* r? *)
Fixpoint rrep (n : nat) (r : regex) : regex :=                       (* r{n} *)
  match n with
  | O => REmpty
  | S n' => RSeq r (rrep n' r)
  end.
Definition rrep_min (n : nat) (r : regex) : regex :=                 (* r{n,} *)
  RSeq (rrep n r) (RStar r).
Fixpoint rrep_upto (n : nat) (r : regex) : regex :=                  (* r{0,n} *)
  match n with
  | O => REmpty
  | S n' => ropt (RSeq r (rrep_upto n' r))
  end.
Definition rrep_range (lo hi : nat) (r : regex) : regex :=           (* r{lo,hi} *)
  RSeq (rrep lo r) (rrep_upto (hi - lo) r).
Fixpoint rlit (s : jsstring) : regex :=
  match s with
  | [] => REmpty
  | c :: s' => RSeq (rchar c) (rlit s')
  end.

(** The match of [r] starting exactly at the head of [s]. *)
Definition rmatch_here (ic : bool) (r : regex) (s : jsstring) : option jsstring :=
  match rmatch ic r s Some with
  | Some rest => Some (take (length s - length rest) s)
  | None => None
  end.

(** [RegExp.prototype.exec] without the [g] flag: the start index and the
    text of the leftmost match, trying the indices 0, 1, ..., length. *)
Fixpoint rexec_from (ic : bool) (r : regex) (i : nat) (s : jsstring)
  : option (nat * jsstring) :=
  match rmatch_here ic r s with
  | Some w => Some (i, w)
  | None =>
      match s with
      | [] => None
      | _ :: s' => rexec_from ic r (S i) s'
      end
  end.

Definition rexec (ic : bool) (r : regex) (s : jsstring) : option (nat * jsstring) :=
  rexec_from ic r 0 s.

(** [s.match(r)] read at index 0: the matched text, or [None] for the
    [null] that [match] returns. *)
Definition str_match (ic : bool) (r : regex) (s : jsstring) : option jsstring :=
  option_map snd (rexec ic r s).

(** [r.test(s)]. *)
Definition re_test (ic : bool) (r : regex) (s : jsstring) : bool :=
  match rexec ic r s with Some _ => true | None => false end.

(** [String.prototype.split] with a regular expression separator
    (RegExp.prototype[Symbol.split]): at each index the separator is tried;
    a match that ends where the current piece starts is skipped. *)
Fixpoint split_re_go (ic : bool) (r : regex) (skip : nat) (cur s : jsstring)
  : list jsstring :=
  match s with
  | [] => [rev cur]
  | c :: s' =>
      match skip with
      | S n => split_re_go ic r n cur s'
      | O =>
          match rmatch ic r s Some with
          | Some rest =>
              match length s - length rest with
              | O =>
                  match cur with
                  | [] => split_re_go ic r 0 [c] s'
                  | _ => rev cur :: split_re_go ic r 0 [c] s'
                  end
              | S n => rev cur :: split_re_go ic r n [] s'
              end
          | None => split_re_go ic r 0 (c :: cur) s'
          end
      end
  end.

Definition split_re (ic : bool) (r : regex) (s : jsstring) : list jsstring :=
  match s with
  | [] => match rmatch ic r [] Some with Some _ => [] | None => [[]] end
  | _ => split_re_go ic r 0 [] s
  end.

(* ===================================================================== *)
(** ** JavaScript runtime: values, exceptions, JSON.parse                 *)
(* ===================================================================== *)

(** The values the handlers see.  A number is kept as the decimal it was
    written as: [VNum neg m e] is (-1)^neg * m * 10^e. *)
Inductive value :=
| VUndefined
| VNull
| VBool (b : bool)
| VNum (neg : bool) (mant : N) (exp10 : Z)
| VStr (s : jsstring)
| VArr (elems : list value)
| VObj (members : list (jsstring * value)).

Inductive exn :=
| SyntaxError
| TypeError
| ENOENT
| Error (msg : jsstring)       (* throw new Error(msg) *)
| External (code : nat).       (* raised by a collaborator *)

Inductive completion (A : Type) :=
| Normal (a : A)
| Throw (e : exn).
Arguments Normal {A} a.
Arguments Throw {A} e.

(** A decimal that the Number type rounds to zero: its digits are all
    zero, or it is at most 2^-1075, half the least positive double. *)
Definition num_is_zero (mant : N) (exp10 : Z) : bool :=
  (mant =? 0)%N
  || ((exp10 <? 0)%Z && (Z.of_N mant * 2 ^ 1075 <=? 10 ^ (- exp10))%Z).

(** ToBoolean. *)
Definition truthy (v : value) : bool :=
  match v with
  | VUndefined | VNull => false
  | VBool b => b
  | VNum _ m e => negb (num_is_zero m e)
  | VStr s => nonempty s
  | VArr _ | VObj _ => true
  end.

(** The last member named [k]: a later duplicate key overrides. *)
Fixpoint lookup_member (k : jsstring) (ms : list (jsstring * value)) : option value :=
  match ms with
  | [] => None
  | (k', v) :: ms' =>
      match lookup_member k ms' with
      | Some v' => Some v'
      | None => if str_eqb k k' then Some v else None
      end
  end.

(** [v.k] for a key that no prototype defines (the source reads [role],
    [stack], [question], [answer], [candidate], [answers] and [name]). *)
Definition get_prop (v : value) (k : jsstring) : completion value :=
  match v with
  | VUndefined | VNull => Throw TypeError
  | VObj ms => Normal (default VUndefined (lookup_member k ms))
  | _ => Normal VUndefined
  end.

(** JSON white space. *)
Definition is_json_ws (c : cu) : bool :=
  (c =? 9)%N || (c =? 10)%N || (c =? 13)%N || (c =? 32)%N.

Fixpoint skip_ws (s : jsstring) : jsstring :=
  match s with
  | c :: s' => if is_json_ws c then skip_ws s' else s
  | [] => []
  end.

Definition hex_val (c : cu) : option N :=
  if is_digit c then Some (c - 48)%N
  else if in_range 97 102 c then Some (c - 87)%N
  else if in_range 65 70 c then Some (c - 55)%N
  else None.

Definition hex4 (a b c d : cu) : option cu :=
  match hex_val a, hex_val b, hex_val c, hex_val d with
  | Some x, Some y, Some z, Some w => Some (((x * 16 + y) * 16 + z) * 16 + w)%N
  | _, _, _, _ => None
  end.

Definition unescape (c : cu) : option cu :=
  if (c =? 34)%N then Some 34%N            (* quote *)
  else if (c =? 92)%N then Some 92%N       (* backslash *)
  else if (c =? 47)%N then Some 47%N       (* slash *)
  else if (c =? 98)%N then Some 8%N        (* backspace *)
  else if (c =? 102)%N then Some 12%N      (* form feed *)
  else if (c =? 110)%N then Some 10%N      (* line feed *)
  else if (c =? 114)%N then Some 13%N      (* carriage return *)
  else if (c =? 116)%N then Some 9%N       (* tab *)
  else None.

(** The characters of a string literal after its opening quote. *)
Fixpoint parse_string_body (acc s : jsstring) : option (jsstring * jsstring) :=
  match s with
  | [] => None
  | c :: s' =>
      if (c =? 34)%N then Some (rev acc, s')
      else if (c =? 92)%N then
        match s' with
        | [] => None
        | e :: s'' =>
            if (e =? 117)%N then
              match s'' with
              | h1 :: h2 :: h3 :: h4 :: s3 =>
                  match hex4 h1 h2 h3 h4 with
                  | Some u => parse_string_body (u :: acc) s3
                  | None => None
                  end
              | _ => None
              end
            else
              match unescape e with
              | Some u => parse_string_body (u :: acc) s''
              | None => None
              end
        end
      else if (c <? 32)%N then None
      else parse_string_body (c :: acc) s'
  end.

(** The longest run of digits at the head of [s], as a number, with how
    many there are. *)
Fixpoint parse_digits (acc : N) (n : nat) (s : jsstring) : N * nat * jsstring :=
  match s with
  | c :: s' =>
      if is_digit c then parse_digits (acc * 10 + (c - 48))%N (S n) s'
      else (acc, n, s)
  | [] => (acc, n, s)
  end.

(** A number literal: an optional minus sign; the integer part, a single
    0 or a digit 1-9 followed by digits; an optional fraction, a dot and
    at least one digit; an optional exponent, e or E, an optional sign and
    at least one digit. *)
Definition parse_number (s : jsstring) : option (value * jsstring) :=
  let '(neg, s1) :=
    match s with
    | c :: s' => if (c =? 45)%N then (true, s') else (false, s)
    | [] => (false, s)
    end in
  let int_part :=
    match s1 with
    | c :: s' =>
        if (c =? 48)%N then Some (0%N, s')
        else if is_digit c then
          let '(m, _, r) := parse_digits 0 0 s1 in Some (m, r)
        else None
    | [] => None
    end in
  match int_part with
  | None => None
  | Some (m, s2) =>
      let frac :=
        match s2 with
        | c :: s' =>
            if (c =? 46)%N then
              match parse_digits m 0 s' with
              | (_, O, _) => None
              | (m', n, r) => Some (m', n, r)
              end
            else Some (m, O, s2)
        | [] => Some (m, O, s2)
        end in
      match frac with
      | None => None
      | Some (m', nfrac, s3) =>
          let expo :=
            match s3 with
            | c :: s' =>
                if (c =? 101)%N || (c =? 69)%N then
                  let '(eneg, s4) :=
                    match s' with
                    | d :: s'' =>
                        if (d =? 45)%N then (true, s'')
                        else if (d =? 43)%N then (false, s'')
                        else (false, s')
                    | [] => (false, s')
                    end in
                  match parse_digits 0 0 s4 with
                  | (_, O, _) => None
                  | (e, _, r) =>
                      Some ((if eneg then - Z.of_N e else Z.of_N e)%Z, r)
                  end
                else Some (0%Z, s3)
            | [] => Some (0%Z, s3)
            end in
          match expo with
          | None => None
          | Some (e, s5) => Some (VNum neg m' (e - Z.of_nat nfrac)%Z, s5)
          end
      end
  end.

(** Recursive descent over the JSON grammar; every call spends one unit
    of [fuel].  [parse_elements] and [parse_members] start after the
    white space that follows the opening bracket or a comma. *)
Fixpoint parse_value (fuel : nat) (s : jsstring) : option (value * jsstring) :=
  match fuel with
  | O => None
  | S f =>
      match s with
      | [] => None
      | c :: s' =>
          if (c =? 123)%N then                              (* { *)
            match skip_ws s' with
            | d :: r => if (d =? 125)%N then Some (VObj [], r)
                        else parse_members f [] (d :: r)
            | [] => None
            end
          else if (c =? 91)%N then                          (* [ *)
            match skip_ws s' with
            | d :: r => if (d =? 93)%N then Some (VArr [], r)
                        else parse_elements f [] (d :: r)
            | [] => None
            end
          else if (c =? 34)%N then
            match parse_string_body [] s' with
            | Some (str, r) => Some (VStr str, r)
            | None => None
            end
          else if starts_with (js "true") s then Some (VBool true, drop 4 s)
          else if starts_with (js "false") s then Some (VBool false, drop 5 s)
          else if starts_with (js "null") s then Some (VNull, drop 4 s)
          else parse_number s
      end
  end
with parse_elements (fuel : nat) (acc : list value) (s : jsstring)
  : option (value * jsstring) :=
  match fuel with
  | O => None
  | S f =>
      match parse_value f s with
      | Some (v, r) =>
          match skip_ws r with
          | d :: r' =>
              if (d =? 44)%N then parse_elements f (v :: acc) (skip_ws r')
              else if (d =? 93)%N then Some (VArr (rev (v :: acc)), r')
              else None
          | [] => None
          end
      | None => None
      end
  end
with parse_members (fuel : nat) (acc : list (jsstring * value)) (s : jsstring)
  : option (value * jsstring) :=
  match fuel with
  | O => None
  | S f =>
      match s with
      | c :: s1 =>
          if (c =? 34)%N then
            match parse_string_body [] s1 with
            | Some (key, r) =>
                match skip_ws r with
                | d :: r1 =>
                    if (d =? 58)%N then
                      match parse_value f (skip_ws r1) with
                      | Some (v, r2) =>
                          match skip_ws r2 with
                          | d' :: r3 =>
                              if (d' =? 44)%N
                              then parse_members f ((key, v) :: acc) (skip_ws r3)
                              else if (d' =? 125)%N
                              then Some (VObj (rev ((key, v) :: acc)), r3)
                              else None
                          | [] => None
                          end
                      | None => None
                      end
                    else None
                | [] => None
                end
            | None => None
            end
          else None
      | [] => None
      end
  end.

(** Fuel that no input exhausts (see [parse_value_fuel]). *)
Definition json_fuel (s : jsstring) : nat := 2 * length s + 2.

(** [JSON.parse(text)]: one value between optional white space, or a
    SyntaxError. *)
Definition JSON_parse (text : jsstring) : completion value :=
  match parse_value (json_fuel text) (skip_ws text) with
  | Some (v, r) =>
      match skip_ws r with
      | [] => Normal v
      | _ => Throw SyntaxError
      end
  | None => Throw SyntaxError
  end.

(* ===================================================================== *)
(** ** Node runtime: path.extname, the file system, collaborators         *)
(* ===================================================================== *)

(** The code unit of an ASCII character. *)
Definition ch (a : ascii) : cu := N_of_ascii a.
Arguments ch a%_char.

(** [s.slice(a, b)] for [0 <= a] and [b <= s.length]. *)
Definition slice (a b : nat) (s : jsstring) : jsstring := take (b - a) (drop a s).

(** The variables of the loop of [path.posix.extname]. *)
Record ext_state := {
  startDot : Z;
  startPart : Z;
  end_ : Z;
  matchedSlash : bool;
  preDotState : Z
}.

(** The loop [for (i = path.length - 1; i >= 0; --i)]: [rs] is
    [path[0..i]] reversed, so its head is [path[i]]. *)
Fixpoint extname_scan (rs : jsstring) (st : ext_state) : ext_state :=
  match rs with
  | [] => st
  | code :: rs' =>
      let i := Z.of_nat (length rs') in
      if (code =? 47)%N then
        if negb (matchedSlash st)
        then {| startDot := startDot st; startPart := i + 1; end_ := end_ st;
                matchedSlash := matchedSlash st; preDotState := preDotState st |}
        else extname_scan rs' st
      else
        let st1 :=
          if (end_ st =? -1)%Z
          then {| startDot := startDot st; startPart := startPart st; end_ := i + 1;
                  matchedSlash := false; preDotState := preDotState st |}
          else st in
        let st2 :=
          if (code =? 46)%N then
            if (startDot st1 =? -1)%Z
            then {| startDot := i; startPart := startPart st1; end_ := end_ st1;
                    matchedSlash := matchedSlash st1; preDotState := preDotState st1 |}
            else if negb (preDotState st1 =? 1)%Z
            then {| startDot := startDot st1; startPart := startPart st1;
                    end_ := end_ st1; matchedSlash := matchedSlash st1;
                    preDotState := 1 |}
            else st1
          else if negb (startDot st1 =? -1)%Z
          then {| startDot := startDot st1; startPart := startPart st1;
                  end_ := end_ st1; matchedSlash := matchedSlash st1;
                  preDotState := -1 |}
          else st1 in
        extname_scan rs' st2
  end.

(** [path.extname(p)] of Node on POSIX. *)
Definition extname (p : jsstring) : jsstring :=
  let st := extname_scan (rev p)
              {| startDot := -1; startPart := 0; end_ := -1;
                 matchedSlash := true; preDotState := 0 |} in
  if (startDot st =? -1)%Z || (end_ st =? -1)%Z || (preDotState st =? 0)%Z
     || ((preDotState st =? 1)%Z && (startDot st =? end_ st - 1)%Z
         && (startDot st =? startPart st + 1)%Z)
  then []
  else slice (Z.to_nat (startDot st)) (Z.to_nat (end_ st)) p.

(** What a handler does to the outside world, in order. *)
Inductive event :=
| EvReadFile (path : jsstring)
| EvPdfParse (data : jsstring)
| EvMammoth (path : jsstring)
| EvUnlink (path : jsstring)
| EvGenerate (prompt : jsstring).

(** The upload directory (path to contents) and the calls made so far. *)
Record world := {
  fs : gmap jsstring jsstring;
  trace : list event
}.

(** A computation that reads and writes the world and may throw. *)
Definition M (A : Type) : Type := world -> completion A * world.

Definition ret {A} (a : A) : M A := fun w => (Normal a, w).

Definition bind {A B} (m : M A) (f : A -> M B) : M B :=
  fun w => match m w with
           | (Normal a, w') => f a w'
           | (Throw e, w') => (Throw e, w')
           end.

Definition throw {A} (e : exn) : M A := fun w => (Throw e, w).

Definition lift {A} (c : completion A) : M A := fun w => (c, w).

(** [try { m } catch (err) { h err }]. *)
Definition try_catch {A} (m : M A) (h : exn -> M A) : M A :=
  fun w => match m w with
           | (Normal a, w') => (Normal a, w')
           | (Throw e, w') => h e w'
           end.

Definition emit (ev : event) : M unit :=
  fun w => (Normal tt, {| fs := fs w; trace := trace w ++ [ev] |}).

Declare Scope js_scope.
Delimit Scope js_scope with js.
Notation "'let!' x ':=' m 'in' k" := (bind m (fun x => k))
  (at level 10, x name, m at level 100, k at level 200) : js_scope.
Notation "'do!' m 'in' k" := (bind m (fun _ => k))
  (at level 10, m at level 100, k at level 200) : js_scope.
Local Open Scope js_scope.

(** [fs.readFileSync(p)]. *)
Definition readFileSync (p : jsstring) : M jsstring :=
  do! emit (EvReadFile p) in
  fun w => match fs w !! p with
           | Some d => (Normal d, w)
           | None => (Throw ENOENT, w)
           end.

(** [fs.unlinkSync(p)]. *)
Definition unlinkSync (p : jsstring) : M unit :=
  do! emit (EvUnlink p) in
  fun w => match fs w !! p with
           | Some _ => (Normal tt, {| fs := delete p (fs w); trace := trace w |})
           | None => (Throw ENOENT, w)
           end.

(** The collaborators and the built-ins whose result the handlers only
    pass on.  [pdfParse] and [mammoth] give the [text] / [value] field of
    their result ([None] when it is missing), [mammoth] reads the file
    itself; [generateContent] gives [result.response.text()];
    [ToString] is the conversion of a template substitution, [join] is
    [Array.prototype.join] and [JSON_stringify v indent] is
    [JSON.stringify(v, null, indent)], [VUndefined] when [v] is. *)
Record platform := {
  pdfParse : jsstring -> completion (option jsstring);
  mammoth : jsstring -> option jsstring -> completion (option jsstring);
  generateContent : jsstring -> completion jsstring;
  ToString : value -> completion jsstring;
  join : list value -> jsstring -> completion jsstring;
  JSON_stringify : value -> nat -> value
}.

Definition call_pdfParse (P : platform) (data : jsstring) : M (option jsstring) :=
  do! emit (EvPdfParse data) in lift (pdfParse P data).

Definition call_mammoth (P : platform) (path : jsstring) : M (option jsstring) :=
  do! emit (EvMammoth path) in fun w => (mammoth P path (fs w !! path), w).

Definition call_generateContent (P : platform) (prompt : jsstring) : M jsstring :=
  do! emit (EvGenerate prompt) in lift (generateContent P prompt).

(** [v.join(sep)]: only an array has a callable [join]. *)
Definition call_join (P : platform) (v : value) (sep : jsstring) : completion jsstring :=
  match v with
  | VArr l => join P l sep
  | _ => Throw TypeError
  end.

(** [req.file] of multer. *)
Record upload := {
  originalname : jsstring;
  path : jsstring
}.

Record response := {
  status : nat;
  body : value
}.

(** [res.status(code).json({ error: msg })]. *)
Definition error_response (code : nat) (msg : string) : response :=
  {| status := code; body := VObj [(js "error", VStr (js msg))] |}.

(** [res.json(v)]. *)
Definition ok_response (v : value) : response := {| status := 200; body := v |}.

(** A string or [null]. *)
Definition of_option (o : option jsstring) : value :=
  match o with Some s => VStr s | None => VNull end.

(** [x || ""] for a field that is a string or missing. *)
Definition or_empty (o : option jsstring) : jsstring := default [] o.

(* ===================================================================== *)
(** ** The regular expression literals of the source                      *)
(* ===================================================================== *)

(** The six literals are the same, character for character, in
    [src/index.js] and in [src/unnamed/part_000]. *)

Definition any_cu : regex := RSet [CSpace; CNotSpace].               (* [\s\S] *)
Definition digit : regex := RSet [CDigit].                           (* \d *)
Definition space_or_hyphen : regex := RSet [CSpace; CChar (ch "-")]. (* [\s-] *)

(** [/(\{[\s\S]*\}|\[[\s\S]*\])/] *)
Definition json_re : regex :=
  RAlt (RSeq (rchar (ch "{")) (RSeq (RStar any_cu) (rchar (ch "}"))))
       (RSeq (rchar (ch "[")) (RSeq (RStar any_cu) (rchar (ch "]")))).

Definition local_class : list citem :=
  [CRange (ch "a") (ch "z"); CRange (ch "A") (ch "Z"); CRange (ch "0") (ch "9");
   CChar (ch "."); CChar (ch "_"); CChar (ch "%"); CChar (ch "+"); CChar (ch "-")].

Definition domain_class : list citem :=
  [CRange (ch "a") (ch "z"); CRange (ch "A") (ch "Z"); CRange (ch "0") (ch "9");
   CChar (ch "."); CChar (ch "-")].

(** [/[a-zA-Z0-9._%+-]+@[a-zA-Z0-9.-]+\.[a-z]{2,}/] *)
Definition email_re : regex :=
  RSeq (rplus (RSet local_class))
    (RSeq (rchar (ch "@"))
       (RSeq (rplus (RSet domain_class))
          (RSeq (rchar (ch "."))
             (rrep_min 2 (RSet [CRange (ch "a") (ch "z")]))))).

(** [/(\+?\d{1,3}[\s-]?)?(\d{10}|\d{3}[\s-]\d{3}[\s-]\d{4})/] *)
Definition phone_re : regex :=
  RSeq (ropt (RSeq (ropt (rchar (ch "+")))
                (RSeq (rrep_range 1 3 digit) (ropt space_or_hyphen))))
       (RAlt (rrep 10 digit)
             (RSeq (rrep 3 digit)
                (RSeq space_or_hyphen
                   (RSeq (rrep 3 digit)
                      (RSeq space_or_hyphen (rrep 4 digit)))))).

(** [/\r?\n/] *)
Definition newline_re : regex := RSeq (ropt (rchar CR)) (rchar LF).

(** [/resume/i], matched with the [i] flag. *)
Definition resume_re : regex := rlit (js "resume").

(** [/[A-Za-z]/] *)
Definition letter_re : regex :=
  RSet [CRange (ch "A") (ch "Z"); CRange (ch "a") (ch "z")].

(* ===================================================================== *)
(** ** [src/index.js]                                                     *)
(* ===================================================================== *)

Module Index.

(** [function extractJSON(text)]: the fallback [JSON.parse(match[0])] is
    inside the [catch] block, with no handler of its own. *)
Definition extractJSON (text : jsstring) : completion value :=
  match JSON_parse text with
  | Normal v => Normal v
  | Throw _ =>
      match str_match false json_re text with
      | Some m => JSON_parse m
      | None => Normal VNull
      end
  end.

(** [(t.match(re) || [])[0] || null] *)
Definition first_match_or_null (re : regex) (t : jsstring) : option jsstring :=
  match str_match false re t with
  | Some m => if nonempty m then Some m else None
  | None => None
  end.

Definition extractEmail (t : jsstring) : option jsstring :=
  first_match_or_null email_re t.

Definition extractPhone (t : jsstring) : option jsstring :=
  first_match_or_null phone_re t.

(** The test of the [if] inside the loop of [extractName]. *)
Definition name_test (s : jsstring) : bool :=
  negb (re_test true resume_re s) && re_test false letter_re s
  && (length (split_str (js " ") s) <=? 4).

(** [for (let i = 0; i < Math.min(6, lines.length); i++)]: [n] counts the
    iterations that are left. *)
Fixpoint name_loop (n i : nat) (lines : list jsstring) : option jsstring :=
  match n with
  | O => None
  | S n' =>
      match lines !! i with
      | Some s => if name_test s then Some s else name_loop n' (S i) lines
      | None => None
      end
  end.

Definition extractName (t : jsstring) : option jsstring :=
  let lines := filter (fun l => nonempty l = true)
                 (map trim (split_re false newline_re t)) in
  name_loop (Nat.min 6 (length lines)) 0 lines.

(** [app.post("/api/parse-resume", upload.single("file"), ...)]: the
    staged file is never unlinked. *)
Definition parse_resume (P : platform) (file : option upload) : M response :=
  try_catch
    (match file with
     | None => ret (error_response 400 "No file uploaded")
     | Some f =>
         let ext := toLowerCase (extname (originalname f)) in
         let finish (text : jsstring) : M response :=
           ret (ok_response
                  (VObj [(js "name", of_option (extractName text));
                         (js "email", of_option (extractEmail text));
                         (js "phone", of_option (extractPhone text));
                         (js "text", VStr text)])) in
         if str_eqb ext (js ".pdf") then
           let! data := readFileSync (path f) in
           let! pdf := call_pdfParse P data in
           finish (or_empty pdf)
         else if str_eqb ext (js ".docx") then
           let! result := call_mammoth P (path f) in
           finish (or_empty result)
         else ret (error_response 400 "Only PDF or DOCX allowed")
     end)
    (fun _ => ret (error_response 500 "Failed to parse resume")).

(** A destructuring default: used when the property is [undefined]. *)
Definition or_default (v d : value) : value :=
  match v with VUndefined => d | _ => v end.

Definition questions_prompt (role stack : jsstring) : jsstring :=
  js "Generate 6 " ++ role ++ js " interview questions for " ++ stack
  ++ js ". Include easy, medium, and hard. Format JSON: [{"
  ++ quoted (js "id") ++ js ":" ++ quoted (js "q1") ++ js ","
  ++ quoted (js "difficulty") ++ js ":" ++ quoted (js "easy") ++ js ","
  ++ quoted (js "text") ++ js ":" ++ quoted (js "...") ++ js "}]".

(** [app.post("/api/generate-questions", ...)] *)
Definition generate_questions (P : platform) (req_body : value) : M response :=
  try_catch
    (let! role0 := lift (get_prop req_body (js "role")) in
     let! stack0 := lift (get_prop req_body (js "stack")) in
     let role := or_default role0 (VStr (js "Full Stack Developer")) in
     let stack := or_default stack0 (VArr [VStr (js "React"); VStr (js "Node.js")]) in
     let! role_s := lift (ToString P role) in
     let! stack_s := lift (call_join P stack (js ", ")) in
     let! reply := call_generateContent P (questions_prompt role_s stack_s) in
     let! questions := lift (extractJSON reply) in
     ret (ok_response (VObj [(js "questions", questions)])))
    (fun _ => ret (error_response 500 "Gemini question generation failed")).

Definition grading_prompt (question answer : jsstring) : jsstring :=
  js "Grade this answer 0" ++ [8211%N] ++ js "10 with 1 line feedback. Return JSON: {"
  ++ quoted (js "score") ++ js ": number, " ++ quoted (js "feedback")
  ++ js ": string}. Question: " ++ question ++ js " Answer: " ++ answer.

(** [app.post("/api/grade-answer", ...)] *)
Definition grade_answer (P : platform) (req_body : value) : M response :=
  try_catch
    (let! question := lift (get_prop req_body (js "question")) in
     let! answer := lift (get_prop req_body (js "answer")) in
     if negb (truthy question) || negb (truthy answer)
     then ret (error_response 400 "Missing data")
     else
       let! question_s := lift (ToString P question) in
       let! answer_s := lift (ToString P answer) in
       let! reply := call_generateContent P (grading_prompt question_s answer_s) in
       let! grading := lift (extractJSON reply) in
       ret (ok_response grading))
    (fun _ => ret (error_response 500 "Gemini grading failed")).

Definition summary_prompt (name answers : jsstring) : jsstring :=
  js "Summarize interview for " ++ name ++ js ". Answers: " ++ answers
  ++ js ". Return JSON: {" ++ quoted (js "finalScorePercent") ++ js ": number, "
  ++ quoted (js "summary") ++ js ": string}".

(** [app.post("/api/final-summary", ...)]: only [candidate] is checked. *)
Definition final_summary (P : platform) (req_body : value) : M response :=
  try_catch
    (let! candidate := lift (get_prop req_body (js "candidate")) in
     if negb (truthy candidate)
     then ret (error_response 400 "Missing candidate data")
     else
       let! name := lift (get_prop candidate (js "name")) in
       let! name_s := lift (ToString P name) in
       let! answers := lift (get_prop candidate (js "answers")) in
       let! answers_s := lift (ToString P (JSON_stringify P answers 0)) in
       let! reply := call_generateContent P (summary_prompt name_s answers_s) in
       let! summary := lift (extractJSON reply) in
       ret (ok_response summary))
    (fun _ => ret (error_response 500 "Gemini summary failed")).

End Index.

(* ===================================================================== *)
(** ** [src/unnamed/part_000]                                             *)
(* ===================================================================== *)

Module Part000.

(** [function extractJSON(text)]: the fallback parse has its own
    [try]/[catch], which returns [null]. *)
Definition extractJSON (text : jsstring) : completion value :=
  match JSON_parse text with
  | Normal v => Normal v
  | Throw _ =>
      match str_match false json_re text with
      | Some m =>
          match JSON_parse m with
          | Normal v => Normal v
          | Throw _ => Normal VNull
          end
      | None => Normal VNull
      end
  end.

(** [const m = text.match(re); return m ? m[0] : null;] *)
Definition extractEmail (text : jsstring) : option jsstring :=
  str_match false email_re text.

Definition extractPhone (text : jsstring) : option jsstring :=
  str_match false phone_re text.

Definition name_test (s : jsstring) : bool :=
  negb (re_test true resume_re s) && re_test false letter_re s
  && (length (split_str (js " ") s) <=? 4).

Fixpoint name_loop (n i : nat) (lines : list jsstring) : option jsstring :=
  match n with
  | O => None
  | S n' =>
      match lines !! i with
      | Some s => if name_test s then Some s else name_loop n' (S i) lines
      | None => None
      end
  end.

Definition extractName (text : jsstring) : option jsstring :=
  let lines := filter (fun l => nonempty l = true)
                 (map trim (split_re false newline_re text)) in
  name_loop (Nat.min 6 (length lines)) 0 lines.

(** [app.post("/api/parse-resume", upload.single("file"), ...)]: the
    staged file is unlinked before the 400 of the [else] branch and after a
    successful extraction. *)
Definition parse_resume (P : platform) (file : option upload) : M response :=
  try_catch
    (match file with
     | None => ret (error_response 400 "No file uploaded")
     | Some f =>
         let ext := toLowerCase (extname (originalname f)) in
         let finish (text : jsstring) : M response :=
           do! unlinkSync (path f) in
           let name := extractName text in
           let email := extractEmail text in
           let phone := extractPhone text in
           ret (ok_response
                  (VObj [(js "name", of_option name);
                         (js "email", of_option email);
                         (js "phone", of_option phone);
                         (js "text", VStr text)])) in
         if str_eqb ext (js ".pdf") then
           let! data := readFileSync (path f) in
           let! pdf := call_pdfParse P data in
           finish (or_empty pdf)
         else if str_eqb ext (js ".docx") then
           let! result := call_mammoth P (path f) in
           finish (or_empty result)
         else
           do! unlinkSync (path f) in
           ret (error_response 400 "Only PDF or DOCX allowed")
     end)
    (fun _ => ret (error_response 500 "Failed to parse resume")).

(** [v || d] *)
Definition or_else (v d : value) : value := if truthy v then v else d.

Definition indent6 : jsstring := js "      ".

Definition questions_prompt (role stack : jsstring) : jsstring :=
  [LF] ++ indent6 ++ js "Generate 6 technical interview questions for a " ++ role
  ++ js " skilled in " ++ stack ++ js "." ++ [LF]
  ++ indent6 ++ js "- 2 easy, 2 medium, 2 hard." ++ [LF]
  ++ indent6 ++ js "Return strict JSON: [{"
  ++ quoted (js "id") ++ js ":" ++ quoted (js "q1") ++ js ","
  ++ quoted (js "difficulty") ++ js ":" ++ quoted (js "easy") ++ js ","
  ++ quoted (js "text") ++ js ":" ++ quoted (js "...") ++ js "}]" ++ [LF]
  ++ js "    ".

(** [app.post("/api/generate-questions", ...)] *)
Definition generate_questions (P : platform) (req_body : value) : M response :=
  try_catch
    (let! role0 := lift (get_prop req_body (js "role")) in
     let role := or_else role0 (VStr (js "Full Stack Developer")) in
     let! stack0 := lift (get_prop req_body (js "stack")) in
     let stack := or_else stack0 (VArr [VStr (js "React"); VStr (js "Node.js")]) in
     let! role_s := lift (ToString P role) in
     let! stack_s := lift (call_join P stack (js ", ")) in
     let! reply := call_generateContent P (questions_prompt role_s stack_s) in
     let! questions := lift (extractJSON reply) in
     if negb (truthy questions)
     then throw (Error (js "Invalid AI JSON output"))
     else ret (ok_response (VObj [(js "questions", questions)])))
    (fun _ => ret (error_response 500 "Gemini question generation failed")).

Definition grading_prompt (question answer : jsstring) : jsstring :=
  [LF] ++ indent6 ++ js "Evaluate this answer (0" ++ [8211%N] ++ js "10) with 1"
  ++ [8211%N] ++ js "2 lines of feedback." ++ [LF]
  ++ indent6 ++ js "Question: " ++ question ++ [LF]
  ++ indent6 ++ js "Answer: " ++ answer ++ [LF]
  ++ indent6 ++ js "Return strict JSON: {" ++ quoted (js "score") ++ js ": number, "
  ++ quoted (js "feedback") ++ js ": " ++ quoted (js "...") ++ js "}" ++ [LF]
  ++ js "    ".

(** [app.post("/api/grade-answer", ...)] *)
Definition grade_answer (P : platform) (req_body : value) : M response :=
  try_catch
    (let! question := lift (get_prop req_body (js "question")) in
     let! answer := lift (get_prop req_body (js "answer")) in
     if negb (truthy question) || negb (truthy answer)
     then ret (error_response 400 "Missing data")
     else
       let! question_s := lift (ToString P question) in
       let! answer_s := lift (ToString P answer) in
       let! reply := call_generateContent P (grading_prompt question_s answer_s) in
       let! grading := lift (extractJSON reply) in
       if negb (truthy grading)
       then throw (Error (js "Invalid grading output"))
       else ret (ok_response grading))
    (fun _ => ret (error_response 500 "Gemini grading failed")).

Definition summary_prompt (name answers : jsstring) : jsstring :=
  [LF] ++ indent6 ++ js "Summarize this interview:" ++ [LF]
  ++ indent6 ++ js "Name: " ++ name ++ [LF]
  ++ indent6 ++ js "Answers: " ++ answers ++ [LF]
  ++ indent6 ++ js "Return strict JSON: {" ++ quoted (js "finalScorePercent")
  ++ js ": number, " ++ quoted (js "summary") ++ js ": " ++ quoted (js "...")
  ++ js "}" ++ [LF]
  ++ js "    ".

(** [app.post("/api/final-summary", ...)]: [candidate] and
    [candidate.answers] are both checked. *)
Definition final_summary (P : platform) (req_body : value) : M response :=
  try_catch
    (let! candidate := lift (get_prop req_body (js "candidate")) in
     let! missing :=
       (if negb (truthy candidate) then ret true
        else let! answers := lift (get_prop candidate (js "answers")) in
             ret (negb (truthy answers))) in
     if (missing : bool)
     then ret (error_response 400 "Missing candidate data")
     else
       let! name := lift (get_prop candidate (js "name")) in
       let! name_s := lift (ToString P name) in
       let! answers := lift (get_prop candidate (js "answers")) in
       let! answers_s := lift (ToString P (JSON_stringify P answers 2)) in
       let! reply := call_generateContent P (summary_prompt name_s answers_s) in
       let! summary := lift (extractJSON reply) in
       if negb (truthy summary)
       then throw (Error (js "Invalid summary output"))
       else ret (ok_response summary))
    (fun _ => ret (error_response 500 "Gemini summary failed")).

End Part000.

(* ===================================================================== *)
(** ** Specification-level notions                                        *)
(* ===================================================================== *)

(** [w] occurs in [t] as a run of consecutive code units. *)
Definition substring (w t : jsstring) : Prop :=
  exists pre post, t = pre ++ w ++ post.

(** [w] occurs in [t] at index [i]. *)
Definition occurs_at (i : nat) (w t : jsstring) : Prop :=
  exists pre post, t = pre ++ w ++ post /\ length pre = i.

(** Iteration of a language. *)
Inductive star (L : jsstring -> Prop) : jsstring -> Prop :=
| star_nil : star L []
| star_app a b : L a -> star L b -> star L (a ++ b).

(** The strings a pattern denotes. *)
Fixpoint lang (ic : bool) (r : regex) : jsstring -> Prop :=
  match r with
  | REmpty => fun w => w = []
  | RSet items => fun w => exists c, w = [c] /\ set_test ic items c = true
  | RSeq r1 r2 => fun w => exists a b, w = a ++ b /\ lang ic r1 a /\ lang ic r2 b
  | RAlt r1 r2 => fun w => lang ic r1 w \/ lang ic r2 w
  | RStar r1 => star (lang ic r1)
  end.

(** *** The bracket substring of the decoder, in the words of the
        specification *)

(** Index of the first occurrence of [c]. *)
Fixpoint index_of (c : cu) (s : jsstring) : option nat :=
  match s with
  | [] => None
  | x :: s' => if cu_eqb x c then Some 0 else option_map S (index_of c s')
  end.

(** Index of the last occurrence of [c]. *)
Fixpoint last_index_of (c : cu) (s : jsstring) : option nat :=
  match s with
  | [] => None
  | x :: s' =>
      match last_index_of c s' with
      | Some j => Some (S j)
      | None => if cu_eqb x c then Some 0 else None
      end
  end.

(** The text from the first [opening] to the last [closing], with the
    index where it starts, when the first [opening] comes before the last
    [closing]. *)
Definition bracket_candidate (opening closing : cu) (t : jsstring)
  : option (nat * jsstring) :=
  match index_of opening t, last_index_of closing t with
  | Some i, Some j => if i <? j then Some (i, slice i (S j) t) else None
  | _, _ => None
  end.

(** The brace candidate or the square-bracket candidate, whichever starts
    first. *)
Definition bracket_substring (t : jsstring) : option jsstring :=
  match bracket_candidate (ch "{") (ch "}") t, bracket_candidate (ch "[") (ch "]") t with
  | Some (i, w), Some (j, w') => Some (if i <? j then w else w')
  | Some (_, w), None => Some w
  | None, Some (_, w') => Some w'
  | None, None => None
  end.

(** Strict parse, then parse of the bracket substring.  [on_failure] says
    what a failure of the second parse becomes. *)
Definition two_stage_decode (on_failure : exn -> completion value)
    (text : jsstring) : completion value :=
  match JSON_parse text with
  | Normal v => Normal v
  | Throw _ =>
      match bracket_substring text with
      | Some w =>
          match JSON_parse w with
          | Normal v => Normal v
          | Throw e => on_failure e
          end
      | None => Normal VNull
      end
  end.

(** What is left of [s] after the last occurrence of [c]. *)
Fixpoint after_last (c : cu) (s : jsstring) : option jsstring :=
  match s with
  | [] => None
  | x :: s' =>
      match after_last c s' with
      | Some r => Some r
      | None => if cu_eqb x c then Some s' else None
      end
  end.

(** The reply of the specification's example:
    the object with [score] 7 and [feedback] Good, between two lines of
    prose. *)
Definition prose_wrapped_reply : jsstring :=
  js "Here you go:" ++ [LF]
  ++ js "{" ++ quoted (js "score") ++ js ":7," ++ quoted (js "feedback") ++ js ":"
  ++ quoted (js "Good") ++ js "}" ++ [LF]
  ++ js "Hope that helps".

Definition score_7_good : value :=
  VObj [(js "score", VNum false 7 0); (js "feedback", VStr (js "Good"))].

(** Two objects in one reply: the greedy match spans both. *)
Definition two_objects_reply : jsstring :=
  js "{" ++ quoted (js "a") ++ js ":1} and {" ++ quoted (js "b") ++ js ":2}".

(** *** The field heuristics, in the words of the specification *)

(** The lines of a text, trimmed, the empty ones dropped. *)
Definition trimmed_lines (t : jsstring) : list jsstring :=
  filter (fun l => nonempty l = true) (map trim (split_str [LF] t)).

Definition eqb_ci (a b : cu) : bool := cu_eqb (to_lower a) (to_lower b).

Fixpoint starts_with_ci (p s : jsstring) : bool :=
  match p, s with
  | [], _ => true
  | x :: p', y :: s' => eqb_ci x y && starts_with_ci p' s'
  | _ :: _, [] => false
  end.

(** [p] occurs in [s], letter case ignored. *)
Fixpoint contains_ci (p s : jsstring) : bool :=
  starts_with_ci p s
  || match s with
     | [] => false
     | _ :: s' => contains_ci p s'
     end.

Definition has_letter (s : jsstring) : bool := existsb is_letter s.

(** How many space characters (U+0020) [s] holds. *)
Fixpoint count_spaces (s : jsstring) : nat :=
  match s with
  | [] => 0
  | c :: s' => (if cu_eqb c SP then 1 else 0) + count_spaces s'
  end.

(** How many white-space separated tokens [s] holds; [inside] says that
    the previous code unit belongs to a token. *)
Fixpoint count_tokens (inside : bool) (s : jsstring) : nat :=
  match s with
  | [] => 0
  | c :: s' =>
      if is_space c then count_tokens false s'
      else (if inside then 0 else 1) + count_tokens true s'
  end.

(** The test of a candidate line as the code makes it: cut at every
    space character, at most four pieces. *)
Definition name_line_ok (s : jsstring) : bool :=
  negb (contains_ci (js "resume") s) && has_letter s && (count_spaces s <=? 3).

(** The test of a candidate line as the specification words it: four or
    fewer white-space separated tokens. *)
Definition name_line_ok_claimed (s : jsstring) : bool :=
  negb (contains_ci (js "resume") s) && has_letter s && (count_tokens false s <=? 4).

(** The first of the first six trimmed lines that passes [ok]. *)
Definition first_name_line (ok : jsstring -> bool) (t : jsstring) : option jsstring :=
  List.find ok (take 6 (trimmed_lines t)).

Definition local_char (c : cu) : bool :=
  is_letter c || is_digit c || existsb (cu_eqb c) (js "._%+-").

Definition domain_char (c : cu) : bool :=
  is_letter c || is_digit c || existsb (cu_eqb c) (js ".-").

(** [w] is a local part, an at sign, a domain, a dot and a top-level
    domain of at least two code units that pass [tld_char]. *)
Definition email_shaped (tld_char : cu -> bool) (w : jsstring) : Prop :=
  exists l d t,
    w = l ++ [ch "@"] ++ d ++ [ch "."] ++ t
    /\ l <> [] /\ forallb local_char l = true
    /\ d <> [] /\ forallb domain_char d = true
    /\ 2 <= length t /\ forallb tld_char t = true.

(** The two source files and the three extractors of each. *)
Inductive variant := IndexJs | Part000Js.

Inductive field := Email | Phone | Name.

Definition extract (v : variant) (f : field) (t : jsstring) : option jsstring :=
  match v, f with
  | IndexJs, Email => Index.extractEmail t
  | IndexJs, Phone => Index.extractPhone t
  | IndexJs, Name => Index.extractName t
  | Part000Js, Email => Part000.extractEmail t
  | Part000Js, Phone => Part000.extractPhone t
  | Part000Js, Name => Part000.extractName t
  end.

(** *** The handlers *)

Definition parse_resume_of (v : variant) : platform -> option upload -> M response :=
  match v with
  | IndexJs => Index.parse_resume
  | Part000Js => Part000.parse_resume
  end.

(** Equality of strings, letter case ignored. *)
Definition str_eqb_ci (a b : jsstring) : bool :=
  str_eqb (toLowerCase a) (toLowerCase b).

(** The extension of the file name is PDF or DOCX in any letter case. *)
Definition supported_extension (name : jsstring) : bool :=
  str_eqb_ci (extname name) (js ".pdf") || str_eqb_ci (extname name) (js ".docx").

(** A call of a document decoder. *)
Definition decoder_event (ev : event) : bool :=
  match ev with
  | EvPdfParse _ | EvMammoth _ => true
  | _ => false
  end.

(** A call of the generative model. *)
Definition generate_event (ev : event) : bool :=
  match ev with
  | EvGenerate _ => true
  | _ => false
  end.

(** How many times [p] was unlinked. *)
Fixpoint unlink_count (p : jsstring) (tr : list event) : nat :=
  match tr with
  | [] => 0
  | EvUnlink q :: tr' => (if str_eqb p q then 1 else 0) + unlink_count p tr'
  | _ :: tr' => unlink_count p tr'
  end.

(** What a handler added to the trace. *)
Definition new_events (w w' : world) : list event :=
  drop (length (trace w)) (trace w').

(** multer has stored the upload at its path. *)
Definition staged (file : option upload) (w : world) : Prop :=
  match file with
  | Some f => is_Some (fs w !! path f)
  | None => True
  end.

(** A platform for the examples: the decoders give [doc], the model
    replies [reply], and the conversions of a prompt give fixed texts. *)
Definition example_platform (doc : completion (option jsstring)) (reply : jsstring)
  : platform :=
  {| pdfParse := fun _ => doc;
     mammoth := fun _ _ => doc;
     generateContent := fun _ => Normal reply;
     ToString := fun v => Normal (match v with VStr s => s | _ => js "undefined" end);
     join := fun _ _ => Normal (js "React, Node.js");
     JSON_stringify := fun v _ => match v with
                                  | VUndefined => VUndefined
                                  | _ => VStr (js "[]")
                                  end |}.

(** An upload named cv.pdf, staged with some content. *)
Definition cv_pdf : upload :=
  {| originalname := js "cv.pdf"; path := js "/tmp/0a1b2c" |}.

Definition notes_txt : upload :=
  {| originalname := js "notes.txt"; path := js "/tmp/0a1b2c" |}.

Definition staged_world : world :=
  {| fs := {[ js "/tmp/0a1b2c" := js "%PDF-1.4" ]}; trace := [] |}.

(** A reply of the model with no bracket in it. *)
Definition prose_reply : jsstring := js "Sorry, I cannot help with that.".

(** Request bodies of the examples. *)
Definition grade_body : value :=
  VObj [(js "question", VStr (js "What is a closure?"));
        (js "answer", VStr (js "A function with its scope."))].

Definition summary_body : value :=
  VObj [(js "candidate",
         VObj [(js "name", VStr (js "Ann")); (js "answers", VArr [])])].

(** A candidate with a name and no [answers] field. *)
Definition summary_body_no_answers : value :=
  VObj [(js "candidate", VObj [(js "name", VStr (js "Ann"))])].

(** The three endpoints that ask the model, and the message of the 500
    of each. *)
Inductive endpoint := GenerateQuestions | GradeAnswer | FinalSummary.

Definition handler_of (v : variant) (e : endpoint) : platform -> value -> M response :=
  match v, e with
  | IndexJs, GenerateQuestions => Index.generate_questions
  | IndexJs, GradeAnswer => Index.grade_answer
  | IndexJs, FinalSummary => Index.final_summary
  | Part000Js, GenerateQuestions => Part000.generate_questions
  | Part000Js, GradeAnswer => Part000.grade_answer
  | Part000Js, FinalSummary => Part000.final_summary
  end.

Definition failure_message (e : endpoint) : string :=
  match e with
  | GenerateQuestions => "Gemini question generation failed"
  | GradeAnswer => "Gemini grading failed"
  | FinalSummary => "Gemini summary failed"
  end.

(** *** Notions for the properties beyond the claims *)

Definition all_digits (w : jsstring) : bool := forallb is_digit w.

(** A separator of the phone pattern: white space or a hyphen. *)
Definition is_sep (c : cu) : bool := is_space c || cu_eqb c (ch "-").

(** The optional country prefix: an optional plus sign, one to three
    digits, an optional separator. *)
Definition phone_prefix (w : jsstring) : Prop :=
  exists plus ds sep,
    w = plus ++ ds ++ sep
    /\ (plus = [] \/ plus = [ch "+"])
    /\ 1 <= length ds <= 3 /\ all_digits ds = true
    /\ (sep = [] \/ exists c, sep = [c] /\ is_sep c = true).

(** Ten digits in a row, or three, three and four digits with one
    separator between the groups. *)
Definition phone_core (w : jsstring) : Prop :=
  (length w = 10 /\ all_digits w = true)
  \/ exists a s1 b s2 c,
       w = a ++ [s1] ++ b ++ [s2] ++ c
       /\ length a = 3 /\ length b = 3 /\ length c = 4
       /\ all_digits a = true /\ all_digits b = true /\ all_digits c = true
       /\ is_sep s1 = true /\ is_sep s2 = true.

Definition phone_shaped (w : jsstring) : Prop :=
  exists p c, w = p ++ c /\ (p = [] \/ phone_prefix p) /\ phone_core c.

(** The decoder of a variant. *)
Definition extractJSON_of (v : variant) : jsstring -> completion value :=
  match v with
  | IndexJs => Index.extractJSON
  | Part000Js => Part000.extractJSON
  end.

(** The body of the 200 of an endpoint for the decoded value [x]. *)
Definition success_body (e : endpoint) (x : value) : value :=
  match e with
  | GenerateQuestions => VObj [(js "questions", x)]
  | GradeAnswer | FinalSummary => x
  end.





(** The default role and stack of generate-questions. *)
Definition default_role : value := VStr (js "Full Stack Developer").
Definition default_stack : list value := [VStr (js "React"); VStr (js "Node.js")].

Definition questions_prompt_of (v : variant) : jsstring -> jsstring -> jsstring :=
  match v with
  | IndexJs => Index.questions_prompt
  | Part000Js => Part000.questions_prompt
  end.

(* ===================================================================== *)
(** ** Proof tactics                                                      *)
(* ===================================================================== *)

(** Case analysis on the comparisons of a character test. *)
Ltac range_cases :=
  unfold eqb_ci, to_upper, to_lower, is_letter, is_upper, is_lower,
    is_digit, in_range in *;
  unfold cu_eqb in *;
  repeat match goal with
         | |- context [(?a <=? ?b)%N] => destruct (N.leb_spec a b)
         | |- context [(?a =? ?b)%N] => destruct (N.eqb_spec a b)
         | H : context [(?a <=? ?b)%N] |- _ => destruct (N.leb_spec a b)
         | H : context [(?a =? ?b)%N] |- _ => destruct (N.eqb_spec a b)
         end;
  simpl in *; try reflexivity; try discriminate; try lia.

(** Evaluates the character constants of the goal. *)
Ltac norm_ch :=
  repeat match goal with
         | |- context [ch ?a] =>
             let v := eval vm_compute in (ch a) in change (ch a) with v
         end.

(** Truth table of a character class. *)
Ltac bool_cases :=
  repeat match goal with
         | |- context [in_range ?a ?b ?c] => destruct (in_range a b c)
         | |- context [(?a =? ?b)%N] => destruct (a =? b)%N
         end; reflexivity.

(** Unfolds the monad of a handler. *)
Ltac run :=
  unfold call_pdfParse, call_mammoth, call_generateContent, readFileSync,
    unlinkSync, try_catch, bind, ret, throw, lift, emit in *;
  cbn [fs trace fst snd] in *.

(** Reduces the world after a call. *)
Ltac steps := cbn [fs trace fst snd]; rewrite <- ?app_assoc; cbn [app].

(** Case analysis on every call a handler makes. *)
Ltac branches :=
  repeat (match goal with
          | |- context [match ?x with _ => _ end] =>
              lazymatch x with
              | context [match _ with _ => _ end] => fail
              | _ => destruct x eqn:?
              end
          end; cbn [fs trace fst snd]).


(* ===================================================================== *)
(** ** The matcher against the language of a pattern                      *)
(* ===================================================================== *)

Section Matcher.

Variable ic : bool.

Lemma star_loop_sound step (L : jsstring -> Prop) :
  (forall s k x, step s k = Some x ->
     exists a b, s = a ++ b /\ L a /\ k b = Some x) ->
  forall fuel s k x, star_loop step fuel s k = Some x ->
    exists a b, s = a ++ b /\ star L a /\ k b = Some x.
Proof.
  intros Hstep fuel. induction fuel as [|f IH]; intros s k x H; simpl in H.
  - exists [], s. split; [done|]. split; [constructor | done].
  - destruct (step s _) as [y|] eqn:E.
    + injection H as ->. apply Hstep in E as (a & b & -> & La & Hk).
      destruct (length b <? length (a ++ b)); [|done].
      apply IH in Hk as (a' & b' & -> & Sa & Hk).
      exists (a ++ a'), b'. rewrite <- app_assoc. split; [done|].
      split; [by constructor | done].
    + exists [], s. split; [done|]. split; [constructor | done].
Qed.

Lemma rmatch_sound r :
  forall s k x, rmatch ic r s k = Some x ->
    exists a b, s = a ++ b /\ lang ic r a /\ k b = Some x.
Proof.
  induction r as [|items|r1 IH1 r2 IH2|r1 IH1 r2 IH2|r1 IH1]; intros s k x H; simpl in *.
  - by exists [], s.
  - destruct s as [|c s']; [done|]. destruct (set_test ic items c) eqn:E; [|done].
    exists [c], s'. split; [done|]. split; [by exists c | done].
  - apply IH1 in H as (a & b & -> & La & H).
    apply IH2 in H as (a' & b' & -> & La' & H).
    exists (a ++ a'), b'. rewrite <- app_assoc. split; [done|].
    split; [by exists a, a' | done].
  - destruct (rmatch ic r1 s k) as [y|] eqn:E.
    + injection H as ->. apply IH1 in E as (a & b & -> & La & H).
      exists a, b. auto.
    + apply IH2 in H as (a & b & -> & La & H). exists a, b. auto.
  - exact (star_loop_sound (rmatch ic r1) (lang ic r1) IH1 (S (length s)) s k x H).
Qed.

Lemma star_loop_complete step (L : jsstring -> Prop) :
  (forall a b k, L a -> is_Some (k b) -> is_Some (step (a ++ b) k)) ->
  forall a, star L a -> forall fuel b k,
    length (a ++ b) < fuel -> is_Some (k b) ->
    is_Some (star_loop step fuel (a ++ b) k).
Proof.
  intros Hstep a Sa. induction Sa as [|a a' La Sa' IH]; intros fuel b k Hf Hk.
  - destruct fuel as [|f]; simpl; [done|].
    destruct (step _ _); [by eexists | done].
  - destruct a as [|c a].
    { simpl. apply IH; [exact Hf | exact Hk]. }
    destruct fuel as [|f]; [simpl in Hf; lia|].
    rewrite <- app_assoc in *. set (a0 := c :: a) in *.
    cbn [star_loop].
    match goal with |- is_Some (match step ?s ?k' with _ => _ end) =>
      assert (is_Some (step s k')) as [y ->]; [|by eexists] end.
    apply Hstep; [exact La|]. cbn beta.
    assert (length (a' ++ b) < length (a0 ++ a' ++ b)) as Hlt
      by (subst a0; rewrite !length_app; simpl; lia).
    rewrite (proj2 (Nat.ltb_lt _ _) Hlt).
    apply IH; [lia | exact Hk].
Qed.

Lemma rmatch_complete r :
  forall a b k, lang ic r a -> is_Some (k b) -> is_Some (rmatch ic r (a ++ b) k).
Proof.
  induction r as [|items|r1 IH1 r2 IH2|r1 IH1 r2 IH2|r1 IH1]; intros a b k La Hk; simpl in *.
  - by subst.
  - destruct La as (c & -> & Hc). simpl. by rewrite Hc.
  - destruct La as (a1 & a2 & -> & L1 & L2). rewrite <- app_assoc.
    apply IH1; [exact L1|]. by apply IH2.
  - destruct La as [L1|L2].
    + destruct (IH1 a b k L1 Hk) as [y ->]. by eexists.
    + destruct (rmatch ic r1 (a ++ b) k); [by eexists|]. by apply IH2.
  - apply (star_loop_complete (rmatch ic r1) (lang ic r1) IH1 a La
             (S (length (a ++ b))) b k); [lia | exact Hk].
Qed.

(** A match at the head of [s] is a prefix of [s] in the language. *)
Lemma rmatch_here_Some r s w :
  rmatch_here ic r s = Some w ->
  lang ic r w /\ exists post, s = w ++ post.
Proof.
  unfold rmatch_here. destruct (rmatch ic r s Some) as [rest|] eqn:E; [|done].
  intros [= <-]. apply rmatch_sound in E as (a & b & -> & La & [= ->]).
  rewrite length_app.
  replace (length a + length rest - length rest) with (length a) by lia.
  rewrite take_app_length. eauto.
Qed.

(** No match at the head: no prefix of [s] is in the language. *)
Lemma rmatch_here_None r s :
  rmatch_here ic r s = None ->
  forall w post, s = w ++ post -> ~ lang ic r w.
Proof.
  unfold rmatch_here. intros H w post -> Lw.
  destruct (rmatch_complete r w post Some Lw) as [y Hy]; [by eexists|].
  by rewrite Hy in H.
Qed.

Lemma rexec_from_Some r : forall s i j w,
  rexec_from ic r i s = Some (j, w) ->
  exists pre post, s = pre ++ w ++ post /\ j = i + length pre /\ lang ic r w
    /\ forall pre' w' post', s = pre' ++ w' ++ post' -> lang ic r w' ->
         length pre <= length pre'.
Proof.
  induction s as [|c s IH]; intros i j w H; simpl in H.
  - destruct (rmatch_here ic r []) as [w0|] eqn:E; [|done].
    injection H as <- <-. apply rmatch_here_Some in E as (Lw & post & Hp).
    exists [], post. simpl. repeat split; [done | lia | done | intros; lia].
  - destruct (rmatch_here ic r (c :: s)) as [w0|] eqn:E.
    + injection H as <- <-. apply rmatch_here_Some in E as (Lw & post & Hp).
      exists [], post. simpl. repeat split; [done | lia | done | intros; lia].
    + apply IH in H as (pre & post & -> & -> & Lw & Hmin).
      exists (c :: pre), post. simpl. repeat split; [lia | done |].
      intros pre' w' post' Heq Lw'. destruct pre' as [|c' pre'].
      * exfalso. exact (rmatch_here_None r _ E w' post' Heq Lw').
      * simpl in Heq. injection Heq as -> Heq. simpl.
        apply Hmin in Heq; [lia | done].
Qed.

Lemma rexec_from_None r : forall s i,
  rexec_from ic r i s = None ->
  forall pre w post, s = pre ++ w ++ post -> ~ lang ic r w.
Proof.
  induction s as [|c s IH]; intros i H pre w post Heq Lw; simpl in H.
  - destruct (rmatch_here ic r []) eqn:E; [done|].
    destruct pre; [|done]. exact (rmatch_here_None r _ E w post Heq Lw).
  - destruct (rmatch_here ic r (c :: s)) eqn:E; [done|].
    destruct pre as [|c' pre].
    + exact (rmatch_here_None r _ E w post Heq Lw).
    + injection Heq as -> Heq. exact (IH _ H pre w post Heq Lw).
Qed.

(** [String.prototype.match] gives the leftmost occurrence of a string of
    the language. *)
Lemma str_match_Some r s w :
  str_match ic r s = Some w ->
  lang ic r w /\ exists i, occurs_at i w s
    /\ forall j w', occurs_at j w' s -> lang ic r w' -> i <= j.
Proof.
  unfold str_match, rexec. destruct (rexec_from ic r 0 s) as [[j w0]|] eqn:E; [|done].
  simpl. intros [= ->]. apply rexec_from_Some in E as (pre & post & -> & -> & Lw & Hmin).
  split; [done|]. exists (length pre). split; [by exists pre, post|].
  intros j w' (pre' & post' & Heq & <-) Lw'. by eapply Hmin.
Qed.

Lemma str_match_None r s :
  str_match ic r s = None -> forall w, substring w s -> ~ lang ic r w.
Proof.
  unfold str_match, rexec. destruct (rexec_from ic r 0 s) as [[j w0]|] eqn:E; [done|].
  intros _ w (pre & post & ->). by apply (rexec_from_None r _ 0 E pre w post).
Qed.

Lemma str_match_complete r s w :
  substring w s -> lang ic r w -> is_Some (str_match ic r s).
Proof.
  intros Hsub Lw. destruct (str_match ic r s) eqn:E; [by eexists|].
  exfalso. exact (str_match_None r s E w Hsub Lw).
Qed.

Lemma re_test_true r s :
  re_test ic r s = true <-> exists w, substring w s /\ lang ic r w.
Proof.
  unfold re_test. pose proof (str_match_Some r s) as HS.
  pose proof (str_match_None r s) as HN. unfold str_match in *.
  destruct (rexec ic r s) as [[i w]|]; simpl in *.
  - split; [intros _|done]. destruct (HS w eq_refl) as (Lw & j & (pre & post & -> & _) & _).
    exists w. split; [by exists pre, post | done].
  - split; [done|]. intros (w & Hsub & Lw). exfalso. exact (HN eq_refl w Hsub Lw).
Qed.

End Matcher.

(* ===================================================================== *)
(** ** JSON.parse: fuel                                                   *)
(* ===================================================================== *)

Lemma skip_ws_length s : length (skip_ws s) <= length s.
Proof.
  induction s as [|c s IH]; simpl; [lia|]. destruct (is_json_ws c); simpl; lia.
Qed.

Lemma parse_string_body_length : forall n s acc str r,
  length s <= n ->
  parse_string_body acc s = Some (str, r) -> length r < length s.
Proof.
  induction n as [|n IH]; intros s acc str r Hn H.
  - destruct s; [done | simpl in Hn; lia].
  - destruct s as [|c s]; [done|]. cbn [parse_string_body] in H.
    destruct (c =? 34)%N.
    { injection H as _ <-. simpl. lia. }
    destruct (c =? 92)%N.
    + destruct s as [|e s]; [done|].
      destruct (e =? 117)%N.
      * destruct s as [|h1 [|h2 [|h3 [|h4 s]]]]; try done.
        destruct (hex4 h1 h2 h3 h4); [|done].
        apply IH in H; simpl in *; lia.
      * destruct (unescape e); [|done]. apply IH in H; simpl in *; lia.
    + destruct (c <? 32)%N; [done|]. apply IH in H; simpl in *; lia.
Qed.

Lemma parse_digits_length : forall s acc n,
  length (snd (parse_digits acc n s)) <= length s.
Proof.
  induction s as [|c s IH]; intros acc n; simpl; [lia|].
  destruct (is_digit c); simpl; [|lia]. specialize (IH (acc * 10 + (c - 48))%N (S n)). lia.
Qed.

Lemma parse_digits_rest s acc n a k r :
  parse_digits acc n s = (a, k, r) -> length r <= length s.
Proof. intros H. pose proof (parse_digits_length s acc n) as X. by rewrite H in X. Qed.

Lemma parse_digits_cons c s acc n a k r :
  is_digit c = true -> parse_digits acc n (c :: s) = (a, k, r) -> length r <= length s.
Proof. intros Hc H. simpl in H. rewrite Hc in H. by apply parse_digits_rest in H. Qed.

Lemma parse_number_length s v r :
  parse_number s = Some (v, r) -> length r < length s.
Proof.
  unfold parse_number. intros H.
  repeat match type of H with
         | context [parse_digits ?a ?n ?x] =>
             destruct (parse_digits a n x) as [[? ?] ?] eqn:?
         | context [match ?x with _ => _ end] =>
             lazymatch x with
             | context [match _ with _ => _ end] => fail
             | _ => destruct x eqn:?
             end
         end;
  simplify_eq;
  repeat match goal with
         | Hc : is_digit ?c = true, H1 : parse_digits _ _ (?c :: _) = _ |- _ =>
             apply (parse_digits_cons _ _ _ _ _ _ _ Hc) in H1
         | H1 : parse_digits _ _ _ = _ |- _ => apply parse_digits_rest in H1
         end;
  simpl in *; lia.
Qed.

(** One more unit of fuel than twice the length of the input is enough:
    a parse that succeeds with some fuel succeeds with that much, with the
    same result, and consumes at least one code unit. *)
Lemma parse_fuel : forall n,
  (forall s v r, parse_value n s = Some (v, r) ->
     length r < length s
     /\ forall m, 2 * length s < m -> parse_value m s = Some (v, r))
  /\ (forall acc s v r, parse_elements n acc s = Some (v, r) ->
        length r < length s
        /\ forall m, 2 * length s + 1 < m -> parse_elements m acc s = Some (v, r))
  /\ (forall acc s v r, parse_members n acc s = Some (v, r) ->
        length r < length s
        /\ forall m, 2 * length s + 1 < m -> parse_members m acc s = Some (v, r)).
Proof.
  induction n as [|n (IHv & IHe & IHm)]; [by repeat split|].
  split; [|split].
  - intros s v r H. destruct s as [|c s']; [done|]. cbn [parse_value] in H.
    pose proof (skip_ws_length s') as Hws.
    assert (forall m, 2 * length (c :: s') < m ->
              exists m', m = S m' /\ 2 * length s' + 1 < m') as Hm.
    { intros m Hm. destruct m as [|m']; [lia|]. exists m'. simpl in Hm.
      split; [done | lia]. }
    destruct (c =? 123)%N eqn:E1.
    { destruct (skip_ws s') as [|d r0] eqn:E; [done|]. simpl in Hws.
      destruct (d =? 125)%N eqn:E2.
      - injection H as <- <-. split; [simpl; lia|].
        intros m (m' & -> & _)%Hm. cbn [parse_value]. by rewrite E1, E, E2.
      - apply IHm in H as [H1 H2]. split; [simpl in *; lia|].
        intros m (m' & -> & Hm')%Hm. cbn [parse_value]. rewrite E1, E, E2.
        apply H2. simpl in *. lia. }
    destruct (c =? 91)%N eqn:E2.
    { destruct (skip_ws s') as [|d r0] eqn:E; [done|]. simpl in Hws.
      destruct (d =? 93)%N eqn:E3.
      - injection H as <- <-. split; [simpl; lia|].
        intros m (m' & -> & _)%Hm. cbn [parse_value]. by rewrite E1, E2, E, E3.
      - apply IHe in H as [H1 H2]. split; [simpl in *; lia|].
        intros m (m' & -> & Hm')%Hm. cbn [parse_value]. rewrite E1, E2, E, E3.
        apply H2. simpl in *. lia. }
    destruct (c =? 34)%N eqn:E3.
    { destruct (parse_string_body [] s') as [[str r1]|] eqn:E; [|done].
      injection H as <- <-.
      apply (parse_string_body_length (length s')) in E as Hl; [|lia].
      split; [simpl; lia|].
      intros m (m' & -> & _)%Hm. cbn [parse_value]. by rewrite E1, E2, E3, E. }
    destruct (starts_with (js "true") (c :: s')) eqn:E4.
    { injection H as <- <-. split; [rewrite length_drop; simpl; lia|].
      intros m (m' & -> & _)%Hm. cbn [parse_value]. by rewrite E1, E2, E3, E4. }
    destruct (starts_with (js "false") (c :: s')) eqn:E5.
    { injection H as <- <-. split; [rewrite length_drop; simpl; lia|].
      intros m (m' & -> & _)%Hm. cbn [parse_value]. by rewrite E1, E2, E3, E4, E5. }
    destruct (starts_with (js "null") (c :: s')) eqn:E6.
    { injection H as <- <-. split; [rewrite length_drop; simpl; lia|].
      intros m (m' & -> & _)%Hm. cbn [parse_value].
      by rewrite E1, E2, E3, E4, E5, E6. }
    split; [by apply parse_number_length in H|].
    intros m (m' & -> & _)%Hm. cbn [parse_value].
    by rewrite E1, E2, E3, E4, E5, E6.
  - intros acc s v r H. cbn [parse_elements] in H.
    destruct (parse_value n s) as [[v1 r1]|] eqn:Ev; [|done].
    apply IHv in Ev as [Hl1 Hf1]. pose proof (skip_ws_length r1) as Hws.
    destruct (skip_ws r1) as [|d r'] eqn:E; [done|]. simpl in Hws.
    destruct (d =? 44)%N eqn:E1.
    + pose proof (skip_ws_length r') as Hws'. apply IHe in H as [Hl2 Hf2].
      split; [lia|]. intros m Hm. destruct m as [|m']; [lia|].
      cbn [parse_elements]. rewrite (Hf1 m') by lia. rewrite E, E1.
      apply Hf2. lia.
    + destruct (d =? 93)%N eqn:E2; [|done]. injection H as <- <-.
      split; [lia|]. intros m Hm. destruct m as [|m']; [lia|].
      cbn [parse_elements]. rewrite (Hf1 m') by lia. by rewrite E, E1, E2.
  - intros acc s v r H. cbn [parse_members] in H.
    destruct s as [|c s1]; [done|].
    destruct (c =? 34)%N eqn:E0; [|done].
    destruct (parse_string_body [] s1) as [[key r0]|] eqn:Ek; [|done].
    apply (parse_string_body_length (length s1)) in Ek as Hlk; [|lia].
    pose proof (skip_ws_length r0) as Hws0.
    destruct (skip_ws r0) as [|d r1] eqn:E; [done|]. simpl in Hws0.
    destruct (d =? 58)%N eqn:E1; [|done].
    pose proof (skip_ws_length r1) as Hws1.
    destruct (parse_value n (skip_ws r1)) as [[v1 r2]|] eqn:Ev; [|done].
    apply IHv in Ev as [Hl1 Hf1]. pose proof (skip_ws_length r2) as Hws2.
    destruct (skip_ws r2) as [|d' r3] eqn:E'; [done|]. simpl in Hws2.
    destruct (d' =? 44)%N eqn:E2.
    + pose proof (skip_ws_length r3) as Hws3. apply IHm in H as [Hl2 Hf2].
      split; [simpl; lia|]. intros m Hm. destruct m as [|m']; [lia|].
      simpl in Hm. cbn [parse_members]. rewrite E0, Ek, E, E1.
      rewrite (Hf1 m') by lia. rewrite E', E2. apply Hf2. lia.
    + destruct (d' =? 125)%N eqn:E3; [|done]. injection H as <- <-.
      split; [simpl; lia|]. intros m Hm. destruct m as [|m']; [lia|].
      simpl in Hm. cbn [parse_members]. rewrite E0, Ek, E, E1.
      rewrite (Hf1 m') by lia. by rewrite E', E2, E3.
Qed.

(** [JSON_parse] fails only on a text that no amount of fuel parses. *)
Lemma parse_value_fuel text n v r :
  parse_value n (skip_ws text) = Some (v, r) ->
  parse_value (json_fuel text) (skip_ws text) = Some (v, r).
Proof.
  intros H. destruct (parse_fuel n) as (Hv & _). apply Hv in H as [_ H].
  apply H. unfold json_fuel. pose proof (skip_ws_length text). lia.
Qed.

(* ===================================================================== *)
(** ** The structured-response decoder                                    *)
(* ===================================================================== *)

Lemma any_cu_test c : set_test false [CSpace; CNotSpace] c = true.
Proof. unfold set_test. simpl. by destruct (is_space c). Qed.

Lemma rchar_test x c : set_test false [CChar x] c = cu_eqb x c.
Proof. unfold set_test. simpl. by rewrite orb_false_r. Qed.

(** [[\s\S]*] followed by one literal character: the greedy loop stops at
    the last occurrence of that character. *)
Lemma star_any_then_char c : forall s fuel,
  length s < fuel ->
  star_loop (rmatch false any_cu) fuel s (fun t => rmatch false (rchar c) t Some)
  = after_last c s.
Proof.
  induction s as [|x s IH]; intros fuel Hf.
  - destruct fuel; [lia|]. reflexivity.
  - destruct fuel as [|f]; [lia|]. simpl in Hf.
    cbn [star_loop]. unfold any_cu at 1. cbn [rmatch]. rewrite any_cu_test.
    replace (length s <? length (x :: s)) with true
      by (symmetry; apply Nat.ltb_lt; simpl; lia).
    rewrite IH by lia. cbn [after_last].
    destruct (after_last c s); [done|].
    unfold rchar. cbn [rmatch]. rewrite rchar_test.
    rewrite (N.eqb_sym c x : cu_eqb c x = cu_eqb x c). reflexivity.
Qed.

(** One alternative of [json_re] at the head of [s]. *)
Lemma bracket_alt_here o c s :
  rmatch false (RSeq (rchar o) (RSeq (RStar any_cu) (rchar c))) s Some
  = match s with
    | x :: s' => if cu_eqb o x then after_last c s' else None
    | [] => None
    end.
Proof.
  destruct s as [|x s']; [done|].
  unfold rchar at 1. cbn [rmatch]. rewrite rchar_test.
  destruct (cu_eqb o x); [|done].
  apply star_any_then_char. lia.
Qed.

Lemma json_re_here s :
  rmatch false json_re s Some
  = match s with
    | x :: s' =>
        match (if cu_eqb (ch "{") x then after_last (ch "}") s' else None) with
        | Some r => Some r
        | None => if cu_eqb (ch "[") x then after_last (ch "]") s' else None
        end
    | [] => None
    end.
Proof.
  unfold json_re.
  change (rmatch false (RAlt ?a ?b) s Some)
    with (match rmatch false a s Some with
          | Some x => Some x
          | None => rmatch false b s Some
          end).
  rewrite !bracket_alt_here. by destruct s.
Qed.

Lemma after_last_length c : forall s r,
  after_last c s = Some r -> length r < length s.
Proof.
  induction s as [|x s IH]; intros r H; simpl in *; [done|].
  destruct (after_last c s) as [r'|].
  - injection H as <-. specialize (IH r' eq_refl). lia.
  - destruct (cu_eqb x c); [|done]. injection H as <-. lia.
Qed.

(** [after_last] against [last_index_of]. *)
Lemma after_last_index c : forall s,
  match after_last c s, last_index_of c s with
  | Some r, Some j => length s - length r = S j /\ j < length s
  | None, None => True
  | _, _ => False
  end.
Proof.
  induction s as [|x s IH]; simpl; [done|].
  destruct (after_last c s) as [r|] eqn:E, (last_index_of c s) as [j|]; try done.
  - destruct IH as [IH1 IH2]. apply after_last_length in E. split; lia.
  - destruct (cu_eqb x c); [|done]. split; lia.
Qed.

Lemma index_of_lt c : forall s i, index_of c s = Some i -> i < length s.
Proof.
  induction s as [|x s IH]; intros i H; simpl in *; [done|].
  destruct (cu_eqb x c).
  - injection H as <-. lia.
  - destruct (index_of c s) as [i'|]; [|done]. injection H as <-.
    specialize (IH i' eq_refl). lia.
Qed.

(** A code unit that is not the opening bracket shifts the candidate. *)
Lemma bracket_candidate_skip o c x s :
  cu_eqb x o = false ->
  bracket_candidate o c (x :: s)
  = option_map (fun p => (S (fst p), snd p)) (bracket_candidate o c s).
Proof.
  intros Hx. unfold bracket_candidate. cbn [index_of last_index_of]. rewrite Hx.
  destruct (index_of o s) as [i|] eqn:Ei; [|done]. cbn [option_map].
  destruct (last_index_of c s) as [j|] eqn:Ej.
  - change (S i <? S j) with (i <? j). destruct (i <? j); [|done]. reflexivity.
  - destruct (cu_eqb x c); [|done]. reflexivity.
Qed.

(** At the opening bracket the candidate starts here and runs to the last
    closing one. *)
Lemma bracket_candidate_here o c x s :
  cu_eqb x o = true -> cu_eqb x c = false ->
  bracket_candidate o c (x :: s)
  = match after_last c s with
    | Some r => Some (0, take (length (x :: s) - length r) (x :: s))
    | None => None
    end.
Proof.
  intros Hx Hc. unfold bracket_candidate. cbn [index_of last_index_of].
  rewrite Hx, Hc. pose proof (after_last_index c s) as H.
  destruct (after_last c s) as [r|] eqn:E, (last_index_of c s) as [j|]; try done.
  destruct H as [H1 H2]. apply after_last_length in E.
  unfold slice. cbn [Nat.ltb Nat.leb drop]. do 2 f_equal.
  f_equal. simpl length. lia.
Qed.

(** The search of [json_re] finds the bracket substring. *)
Lemma json_re_search : forall s i,
  option_map snd (rexec_from false json_re i s) = bracket_substring s.
Proof.
  induction s as [|x s IH]; intros i.
  - reflexivity.
  - cbn [rexec_from]. unfold rmatch_here. rewrite json_re_here.
    unfold bracket_substring.
    destruct (cu_eqb (ch "{") x) eqn:Eo.
    + assert (x = ch "{") as -> by (symmetry; by apply N.eqb_eq).
      rewrite (bracket_candidate_here (ch "{") (ch "}")) by done.
      rewrite (bracket_candidate_skip (ch "[") (ch "]")) by done.
      destruct (after_last (ch "}") s) as [r|] eqn:E.
      * cbn [option_map snd].
        destruct (bracket_candidate (ch "[") (ch "]") s) as [[j w']|]; reflexivity.
      * change (cu_eqb (ch "[") (ch "{")) with false. cbv iota.
        rewrite IH. unfold bracket_substring.
        assert (bracket_candidate (ch "{") (ch "}") s = None) as ->.
        { unfold bracket_candidate. pose proof (after_last_index (ch "}") s) as H.
          rewrite E in H. destruct (last_index_of (ch "}") s); [done|].
          by destruct (index_of (ch "{") s). }
        destruct (bracket_candidate (ch "[") (ch "]") s) as [[j w']|]; reflexivity.
    + destruct (cu_eqb (ch "[") x) eqn:Eb.
      * assert (x = ch "[") as -> by (symmetry; by apply N.eqb_eq).
        rewrite (bracket_candidate_here (ch "[") (ch "]")) by done.
        rewrite (bracket_candidate_skip (ch "{") (ch "}")) by done.
        destruct (after_last (ch "]") s) as [r|] eqn:E.
        -- cbn [option_map snd].
           destruct (bracket_candidate (ch "{") (ch "}") s) as [[j w']|]; reflexivity.
        -- rewrite IH. unfold bracket_substring.
           assert (bracket_candidate (ch "[") (ch "]") s = None) as ->.
           { unfold bracket_candidate. pose proof (after_last_index (ch "]") s) as H.
             rewrite E in H. destruct (last_index_of (ch "]") s); [done|].
             by destruct (index_of (ch "[") s). }
           destruct (bracket_candidate (ch "{") (ch "}") s) as [[j w']|]; reflexivity.
      * rewrite IH. unfold bracket_substring.
        rewrite (bracket_candidate_skip (ch "{") (ch "}"))
          by (by rewrite (N.eqb_sym x (ch "{") : cu_eqb x _ = cu_eqb _ x)).
        rewrite (bracket_candidate_skip (ch "[") (ch "]"))
          by (by rewrite (N.eqb_sym x (ch "[") : cu_eqb x _ = cu_eqb _ x)).
        destruct (bracket_candidate (ch "{") (ch "}") s) as [[j w]|],
                 (bracket_candidate (ch "[") (ch "]") s) as [[j' w']|];
          cbn [option_map fst snd]; reflexivity.
Qed.

Lemma json_re_match text : str_match false json_re text = bracket_substring text.
Proof. apply json_re_search. Qed.

(** X1.  The decoder of [src/unnamed/part_000] never throws: on every
    text it returns a value, [null] included. *)
Lemma Part000_extractJSON_never_throws text :
  exists v, Part000.extractJSON text = Normal v.
Proof.
  unfold Part000.extractJSON.
  destruct (JSON_parse text); [by eexists|].
  destruct (str_match false json_re text) as [m|]; [|by eexists].
  destruct (JSON_parse m); by eexists.
Qed.

(** Whatever [src/index.js] returns, [src/unnamed/part_000] returns too. *)
Lemma extractJSON_agree_on_return text v :
  Index.extractJSON text = Normal v -> Part000.extractJSON text = Normal v.
Proof.
  unfold Index.extractJSON, Part000.extractJSON.
  destruct (JSON_parse text); [done|].
  destruct (str_match false json_re text) as [m|]; [|done].
  by intros ->.
Qed.

(** X2.  The two variants of the decoder differ exactly where the parse
    of the bracket substring fails: there [src/index.js] throws and
    [src/unnamed/part_000] returns [null]; everywhere else they agree. *)
Lemma extractJSON_differ_only_on_fallback_failure text :
  Index.extractJSON text = Part000.extractJSON text
  \/ exists m e, bracket_substring text = Some m /\ JSON_parse m = Throw e
       /\ Index.extractJSON text = Throw e
       /\ Part000.extractJSON text = Normal VNull.
Proof.
  unfold Index.extractJSON, Part000.extractJSON. rewrite json_re_match.
  destruct (JSON_parse text); [by left|].
  destruct (bracket_substring text) as [m|]; [|by left].
  destruct (JSON_parse m) as [v|e'] eqn:E; [by left|].
  right. by exists m, e'.
Qed.

(** C1 (failing input).  On the text [{a}] the decoder of [src/index.js]
    throws: the strict parse fails, the bracket substring is the whole
    text, and its parse, which has no handler, fails too.  The decoder of
    [src/unnamed/part_000] returns [null] on the same text (see
    [Part000_extractJSON_never_throws]). *)
Theorem Index_extractJSON_throws_on_unparsable_braces :
  Index.extractJSON (js "{a}") = Throw SyntaxError.
Proof. vm_compute. reflexivity. Qed.

(** C4.  Both variants of the decoder are the two-stage function of the
    specification: the strict parse of the whole text, returned when it
    succeeds; otherwise the parse of the bracket substring, the text from
    the first opening brace to the last closing brace or from the first
    opening square bracket to the last closing one, whichever starts
    first; [null] when there is no such substring.  The match is greedy,
    not balanced: in a reply with two objects it spans both.  The
    prose-wrapped reply of the specification decodes to the embedded
    object. *)
Theorem extractJSON_two_stage :
  (forall text,
     str_match false json_re text = bracket_substring text
     /\ Part000.extractJSON text = two_stage_decode (fun _ => Normal VNull) text
     /\ Index.extractJSON text = two_stage_decode Throw text)
  /\ Part000.extractJSON prose_wrapped_reply = Normal score_7_good
  /\ Index.extractJSON prose_wrapped_reply = Normal score_7_good
  /\ bracket_substring two_objects_reply = Some two_objects_reply
  /\ Part000.extractJSON two_objects_reply = Normal VNull.
Proof.
  split.
  - intros text. split; [apply json_re_match|].
    unfold Part000.extractJSON, Index.extractJSON, two_stage_decode.
    rewrite json_re_match. split.
    + reflexivity.
    + destruct (JSON_parse text); [done|].
      destruct (bracket_substring text) as [m|]; [|done].
      by destruct (JSON_parse m).
  - repeat split; vm_compute; reflexivity.
Qed.

(** C9 (failing input).  The two variants of the decoder are not
    extensionally equal: on a reply with two objects the greedy bracket
    substring does not parse, so [src/index.js] throws where
    [src/unnamed/part_000] returns [null]. *)
Theorem extractJSON_variants_differ :
  Index.extractJSON two_objects_reply = Throw SyntaxError
  /\ Part000.extractJSON two_objects_reply = Normal VNull.
Proof. split; vm_compute; reflexivity. Qed.

(* ===================================================================== *)
(** ** The field heuristics                                               *)
(* ===================================================================== *)

(** *** Character tests *)

(** Canonicalisation by upper case, as the matcher does it, is comparison
    regardless of case. *)
Lemma upper_eqb_ci x y : cu_eqb (to_upper x) (to_upper y) = eqb_ci x y.
Proof. range_cases. Qed.

Lemma letter_re_test c :
  set_test false [CRange (ch "A") (ch "Z"); CRange (ch "a") (ch "z")] c = is_letter c.
Proof.
  unfold set_test, is_letter, is_upper, is_lower. simpl.
  by rewrite !orb_false_r.
Qed.

(** *** [/resume/i.test(s)] and [/[A-Za-z]/.test(s)] *)

Lemma rlit_here p : forall s k,
  rmatch true (rlit p) s k
  = if starts_with_ci p s then k (drop (length p) s) else None.
Proof.
  induction p as [|c p IH]; intros s k; [done|].
  cbn [rlit]. unfold rchar.
  change (rmatch true (RSeq ?a ?b) s k)
    with (rmatch true a s (fun s' => rmatch true b s' k)).
  destruct s as [|x s]; [done|]. cbn [rmatch starts_with_ci].
  unfold set_test. cbn [existsb item_test]. rewrite orb_false_r, upper_eqb_ci.
  destruct (eqb_ci c x); [|done]. apply IH.
Qed.

Lemma rexec_rlit_is_Some p : forall s i,
  match rexec_from true (rlit p) i s with Some _ => true | None => false end
  = contains_ci p s.
Proof.
  induction s as [|x s IH]; intros i; cbn [rexec_from contains_ci];
    unfold rmatch_here; rewrite rlit_here;
    destruct (starts_with_ci p _); try done; apply IH.
Qed.

Lemma resume_test s : re_test true resume_re s = contains_ci (js "resume") s.
Proof. apply rexec_rlit_is_Some. Qed.

Lemma rexec_letter_is_Some : forall s i,
  match rexec_from false letter_re i s with Some _ => true | None => false end
  = has_letter s.
Proof.
  induction s as [|x s IH]; intros i; [done|].
  cbn [rexec_from has_letter existsb]. unfold rmatch_here, letter_re.
  cbn [rmatch]. rewrite letter_re_test.
  destruct (is_letter x); [done|]. apply IH.
Qed.

Lemma letter_test s : re_test false letter_re s = has_letter s.
Proof. apply rexec_letter_is_Some. Qed.

(** *** [s.split(" ").length] *)

Lemma split_space_length : forall s cur,
  length (split_str_go (js " ") 0 cur s) = S (count_spaces s).
Proof.
  induction s as [|x s IH]; intros cur; [done|].
  cbn [split_str_go count_spaces]. change (js " ") with [SP].
  cbn [starts_with]. rewrite andb_true_r.
  rewrite (N.eqb_sym SP x : cu_eqb SP x = cu_eqb x SP).
  destruct (cu_eqb x SP); cbn [length Nat.sub]; rewrite IH; lia.
Qed.

Lemma name_test_spec s :
  Part000.name_test s = name_line_ok s /\ Index.name_test s = name_line_ok s.
Proof.
  unfold Part000.name_test, Index.name_test, name_line_ok.
  rewrite resume_test, letter_test. unfold split_str.
  rewrite split_space_length. done.
Qed.

(** *** The loop over the first lines *)

Lemma Part000_name_loop_find : forall n i lines,
  i + n <= length lines ->
  Part000.name_loop n i lines = List.find Part000.name_test (take n (drop i lines)).
Proof.
  induction n as [|n IH]; intros i lines Hn; [done|].
  cbn [Part000.name_loop].
  destruct (lines !! i) as [s|] eqn:E.
  - rewrite (drop_S _ _ _ E). cbn [take List.find].
    destruct (Part000.name_test s); [done|]. apply IH. lia.
  - apply lookup_ge_None in E. lia.
Qed.

Lemma Index_name_loop_find : forall n i lines,
  i + n <= length lines ->
  Index.name_loop n i lines = List.find Index.name_test (take n (drop i lines)).
Proof.
  induction n as [|n IH]; intros i lines Hn; [done|].
  cbn [Index.name_loop].
  destruct (lines !! i) as [s|] eqn:E.
  - rewrite (drop_S _ _ _ E). cbn [take List.find].
    destruct (Index.name_test s); [done|]. apply IH. lia.
  - apply lookup_ge_None in E. lia.
Qed.

Lemma take_min_length {A} n (l : list A) : take (Nat.min n (length l)) l = take n l.
Proof.
  destruct (Nat.le_ge_cases n (length l)).
  - by rewrite Nat.min_l.
  - rewrite Nat.min_r by done. by rewrite !take_ge by lia.
Qed.

Lemma find_ext {A} (f g : A -> bool) l :
  (forall x, f x = g x) -> List.find f l = List.find g l.
Proof. intros H. induction l as [|x l IH]; [done|]. simpl. by rewrite H, IH. Qed.

(** *** [text.split(/\r?\n/)] against cutting at line feeds *)

Lemma newline_here s :
  rmatch false newline_re s Some
  = match s with
    | x :: s' =>
        if cu_eqb CR x then
          match s' with
          | y :: s'' => if cu_eqb LF y then Some s'' else None
          | [] => None
          end
        else if cu_eqb LF x then Some s' else None
    | [] => None
    end.
Proof.
  unfold newline_re, ropt, rchar. destruct s as [|x s']; [done|].
  cbn [rmatch]. rewrite !rchar_test.
  destruct (cu_eqb CR x) eqn:E.
  - assert (x = CR) as -> by (symmetry; by apply N.eqb_eq).
    destruct s' as [|y s'']; [done|]. rewrite rchar_test.
    by destruct (cu_eqb LF y).
  - done.
Qed.

Lemma trimEnd_snoc_space s c : is_space c = true -> trimEnd (s ++ [c]) = trimEnd s.
Proof.
  intros Hc. unfold trimEnd. rewrite rev_app_distr. simpl. by rewrite Hc.
Qed.

Lemma trim_snoc_space c : is_space c = true ->
  forall s, trim (s ++ [c]) = trim s.
Proof.
  intros Hc. unfold trim. induction s as [|x s IH]; simpl.
  - by rewrite Hc.
  - destruct (is_space x); [exact IH|].
    exact (trimEnd_snoc_space (x :: s) c Hc).
Qed.

Lemma split_re_go_match ic r x s cur rest n :
  rmatch ic r (x :: s) Some = Some rest ->
  length (x :: s) - length rest = S n ->
  split_re_go ic r 0 cur (x :: s) = rev cur :: split_re_go ic r n [] s.
Proof. intros H Hn. cbn [split_re_go]. by rewrite H, Hn. Qed.

Lemma split_re_go_no_match ic r x s cur :
  rmatch ic r (x :: s) Some = None ->
  split_re_go ic r 0 cur (x :: s) = split_re_go ic r 0 (x :: cur) s.
Proof. intros H. cbn [split_re_go]. by rewrite H. Qed.

Lemma split_lf_at_lf s cur :
  split_str_go [LF] 0 cur (LF :: s) = rev cur :: split_str_go [LF] 0 [] s.
Proof. reflexivity. Qed.

Lemma split_lf_other x s cur :
  cu_eqb LF x = false ->
  split_str_go [LF] 0 cur (x :: s) = split_str_go [LF] 0 (x :: cur) s.
Proof. intros H. cbn [split_str_go starts_with]. by rewrite H. Qed.

(** After trimming, the pieces between [/\r?\n/] are the pieces between
    line feeds: a carriage return before a line feed is white space at the
    end of its piece. *)
Lemma split_newline_go_trim : forall s cur,
  map trim (split_re_go false newline_re 0 cur s)
  = map trim (split_str_go [LF] 0 cur s).
Proof.
  induction s as [|x s IH]; intros cur; [done|].
  pose proof (newline_here (x :: s)) as Hm. cbv beta iota in Hm.
  destruct (cu_eqb CR x) eqn:Ecr.
  - assert (x = CR) as -> by (symmetry; by apply N.eqb_eq).
    rewrite (split_lf_other CR) by done.
    destruct s as [|y s'].
    + by rewrite (split_re_go_no_match _ _ _ _ _ Hm).
    + destruct (cu_eqb LF y) eqn:Elf.
      * assert (y = LF) as -> by (symmetry; by apply N.eqb_eq).
        rewrite (split_re_go_match _ _ _ _ _ _ 1 Hm) by (simpl; lia).
        rewrite split_lf_at_lf.
        change (split_re_go false newline_re 1 [] (LF :: s'))
          with (split_re_go false newline_re 0 [] s').
        cbn [map]. f_equal.
        -- simpl rev. symmetry. by apply trim_snoc_space.
        -- specialize (IH []). rewrite split_lf_at_lf in IH.
           rewrite (split_re_go_match false newline_re LF s' [] s' 0) in IH;
             [| by rewrite newline_here | simpl; lia].
           cbn [map] in IH. by injection IH.
      * rewrite (split_re_go_no_match _ _ _ _ _ Hm). apply IH.
  - destruct (cu_eqb LF x) eqn:Elf.
    + assert (x = LF) as -> by (symmetry; by apply N.eqb_eq).
      rewrite (split_re_go_match _ _ _ _ _ _ 0 Hm) by (simpl; lia).
      rewrite split_lf_at_lf. cbn [map]. f_equal. apply IH.
    + rewrite (split_re_go_no_match _ _ _ _ _ Hm).
      rewrite split_lf_other by done. apply IH.
Qed.

Lemma split_newline_trim t :
  map trim (split_re false newline_re t) = map trim (split_str [LF] t).
Proof.
  destruct t as [|x t]; [reflexivity|]. apply split_newline_go_trim.
Qed.

Lemma source_lines t :
  filter (fun l => nonempty l = true) (map trim (split_re false newline_re t))
  = trimmed_lines t.
Proof. unfold trimmed_lines. by rewrite split_newline_trim. Qed.

(** *** [extractName] *)

Lemma extractName_first_line t :
  Part000.extractName t = first_name_line name_line_ok t
  /\ Index.extractName t = first_name_line name_line_ok t.
Proof.
  unfold Part000.extractName, Index.extractName, first_name_line.
  rewrite source_lines.
  rewrite Part000_name_loop_find, Index_name_loop_find by apply Nat.le_min_r.
  rewrite drop_0, take_min_length. split; apply find_ext; apply name_test_spec.
Qed.

(** C5 (as amended).  [extractName] of either variant takes the trimmed,
    non-empty lines of the text, looks at the first six at most, in
    order, and returns the first one that does not hold resume in any
    letter case, holds a letter A-Z or a-z, and holds at most three space
    characters, that is, falls into four or fewer pieces when cut at every
    single space; without such a line it returns the absent marker.  It
    is a total function, so it never raises. *)
Theorem extractName_spec t :
  Part000.extractName t = first_name_line name_line_ok t
  /\ Index.extractName t = first_name_line name_line_ok t
  /\ forall s, name_line_ok s
       = negb (contains_ci (js "resume") s) && has_letter s
         && (length (split_str (js " ") s) <=? 4).
Proof.
  destruct (extractName_first_line t) as [H1 H2]. repeat split; [done..|].
  intros s. unfold name_line_ok, split_str. rewrite split_space_length.
  reflexivity.
Qed.

(** C5 (counterexample).  The line [A  B  C], with two spaces between
    the letters, has three white-space separated tokens, so the line test
    of the claim accepts it; the code cuts it into five pieces at its four
    spaces and returns the absent marker. *)
Lemma extractName_counts_spaces_not_tokens :
  first_name_line name_line_ok_claimed (js "A  B  C") = Some (js "A  B  C")
  /\ Part000.extractName (js "A  B  C") = None
  /\ Index.extractName (js "A  B  C") = None.
Proof. repeat split; vm_compute; reflexivity. Qed.

(** The examples of the specification. *)
Example extractName_example_jane :
  Part000.extractName (js "Jane Doe" ++ [LF] ++ js "Resume" ++ [LF]
                        ++ js "jane.doe@example.com") = Some (js "Jane Doe")
  /\ Index.extractName (js "Jane Doe" ++ [LF] ++ js "Resume" ++ [LF]
                        ++ js "jane.doe@example.com") = Some (js "Jane Doe").
Proof. split; vm_compute; reflexivity. Qed.

Example extractName_example_long_line :
  Part000.extractName
    (js "Curriculum Vitae for a Senior Principal Staff Software Engineer"
     ++ [CR; LF] ++ js "  Jane Doe  ") = Some (js "Jane Doe").
Proof. vm_compute. reflexivity. Qed.

(** *** The language of the e-mail pattern *)

Lemma star_set_forallb items : forall w,
  star (lang false (RSet items)) w <-> forallb (set_test false items) w = true.
Proof.
  intros w. split.
  - induction 1 as [|a b (c & -> & Hc) _ IH]; [done|]. simpl. by rewrite Hc, IH.
  - induction w as [|c w IH]; simpl; intros H; [constructor|].
    apply andb_true_iff in H as [Hc Hw].
    apply (star_app _ [c] w); [by exists c | by apply IH].
Qed.

Lemma lang_rchar c w : lang false (rchar c) w <-> w = [c].
Proof.
  unfold rchar. cbn [lang]. split.
  - intros (x & -> & Hx). rewrite rchar_test in Hx.
    apply N.eqb_eq in Hx. by subst.
  - intros ->. exists c. split; [done|]. rewrite rchar_test. apply N.eqb_refl.
Qed.

Lemma lang_plus_set items w :
  lang false (rplus (RSet items)) w
  <-> w <> [] /\ forallb (set_test false items) w = true.
Proof.
  unfold rplus. cbn [lang]. split.
  - intros (a & b & -> & (c & -> & Hc) & Hb). apply star_set_forallb in Hb.
    split; [done|]. simpl. by rewrite Hc, Hb.
  - intros [Hne H]. destruct w as [|c w]; [done|]. simpl in H.
    apply andb_true_iff in H as [Hc Hw].
    exists [c], w. split; [done|]. split; [by exists c | by apply star_set_forallb].
Qed.

Lemma lang_rep_min_2_set items w :
  lang false (rrep_min 2 (RSet items)) w
  <-> 2 <= length w /\ forallb (set_test false items) w = true.
Proof.
  unfold rrep_min. cbn [rrep lang]. split.
  - intros (a & b & -> & (a1 & a2 & -> & (c1 & -> & H1) & (a3 & a4 & -> & (c2 & -> & H2) & ->)) & Hb).
    apply star_set_forallb in Hb. simpl. rewrite H1, H2, Hb. split; [lia | done].
  - intros [Hlen H]. destruct w as [|c1 [|c2 w]]; simpl in Hlen; [lia..|].
    simpl in H. apply andb_true_iff in H as [H1 H].
    apply andb_true_iff in H as [H2 Hw].
    exists [c1; c2], w. split; [done|]. split; [|by apply star_set_forallb].
    exists [c1], [c2]. split; [done|]. split; [by exists c1|].
    exists [c2], []. split; [done|]. split; [by exists c2 | done].
Qed.

Lemma local_class_test c : set_test false local_class c = local_char c.
Proof.
  unfold set_test, local_class, local_char, is_letter, is_upper, is_lower, is_digit.
  change (js "._%+-") with [ch "."; ch "_"; ch "%"; ch "+"; ch "-"].
  cbn [existsb item_test andb]. unfold cu_eqb. norm_ch.
  rewrite !(N.eqb_sym c). bool_cases.
Qed.

Lemma domain_class_test c : set_test false domain_class c = domain_char c.
Proof.
  unfold set_test, domain_class, domain_char, is_letter, is_upper, is_lower, is_digit.
  change (js ".-") with [ch "."; ch "-"].
  cbn [existsb item_test andb]. unfold cu_eqb. norm_ch.
  rewrite !(N.eqb_sym c). bool_cases.
Qed.

Lemma lower_class_test c : set_test false [CRange (ch "a") (ch "z")] c = is_lower c.
Proof. unfold set_test, is_lower. simpl. by rewrite !orb_false_r. Qed.

Lemma forallb_ext' {A} (f g : A -> bool) l :
  (forall x, f x = g x) -> forallb f l = forallb g l.
Proof. intros H. induction l as [|x l IH]; [done|]. simpl. by rewrite H, IH. Qed.

(** The pattern of the source denotes the e-mail shaped strings whose
    top-level domain is in lower case. *)
Lemma email_re_lang w : lang false email_re w <-> email_shaped is_lower w.
Proof.
  unfold email_re, email_shaped. cbn [lang]. split.
  - intros (l & w1 & -> & Hl & at_ & w2 & -> & Hat & d & w3 & -> & Hd & dot & t & -> & Hdot & Ht).
    apply lang_plus_set in Hl as [Hl1 Hl2]. apply lang_plus_set in Hd as [Hd1 Hd2].
    apply lang_rchar in Hat as ->. apply lang_rchar in Hdot as ->.
    apply lang_rep_min_2_set in Ht as [Ht1 Ht2].
    exists l, d, t. repeat split; try done.
    + by rewrite <- (forallb_ext' _ _ l local_class_test).
    + by rewrite <- (forallb_ext' _ _ d domain_class_test).
    + by rewrite <- (forallb_ext' _ _ t lower_class_test).
  - intros (l & d & t & -> & Hl1 & Hl2 & Hd1 & Hd2 & Ht1 & Ht2).
    exists l, ([ch "@"] ++ d ++ [ch "."] ++ t). split; [done|]. split.
    { apply lang_plus_set. split; [done|].
      by rewrite (forallb_ext' _ _ l local_class_test). }
    exists [ch "@"], (d ++ [ch "."] ++ t). split; [done|].
    split; [by apply lang_rchar|].
    exists d, ([ch "."] ++ t). split; [done|]. split.
    { apply lang_plus_set. split; [done|].
      by rewrite (forallb_ext' _ _ d domain_class_test). }
    exists [ch "."], t. split; [done|]. split; [by apply lang_rchar|].
    apply lang_rep_min_2_set. split; [done|].
    by rewrite (forallb_ext' _ _ t lower_class_test).
Qed.

Lemma email_shaped_nonempty tld w : email_shaped tld w -> nonempty w = true.
Proof.
  intros (l & d & t & -> & Hl & _). by destruct l.
Qed.

(** The two variants of [extractEmail] agree. *)
Lemma extractEmail_variants t : Index.extractEmail t = Part000.extractEmail t.
Proof.
  unfold Index.extractEmail, Index.first_match_or_null, Part000.extractEmail.
  destruct (str_match false email_re t) as [m|] eqn:E; [|done].
  apply str_match_Some in E as [Lm _]. apply email_re_lang in Lm.
  by rewrite (email_shaped_nonempty _ _ Lm).
Qed.

(** C6 (as amended).  [extractEmail] of either variant returns the
    leftmost part of the text that is a local part, an at sign, a domain,
    a dot and a top-level domain of two or more lower-case letters a-z
    (the letters of the top-level domain are matched case-sensitively);
    the absent marker is returned exactly when the text has no such
    part. *)
Theorem extractEmail_leftmost_lower_tld v t :
  match extract v Email t with
  | Some m =>
      email_shaped is_lower m
      /\ exists i, occurs_at i m t
           /\ forall j w, occurs_at j w t -> email_shaped is_lower w -> i <= j
  | None => forall w, substring w t -> ~ email_shaped is_lower w
  end.
Proof.
  assert (extract v Email t = str_match false email_re t) as ->.
  { destruct v; [apply extractEmail_variants | reflexivity]. }
  destruct (str_match false email_re t) as [m|] eqn:E.
  - apply str_match_Some in E as (Lm & i & Hocc & Hmin).
    split; [by apply email_re_lang|]. exists i. split; [done|].
    intros j w Hj Hw. apply (Hmin j w Hj). by apply email_re_lang.
  - intros w Hsub Hw. apply (str_match_None false email_re t E w Hsub).
    by apply email_re_lang.
Qed.

(** C6 (counterexample).  [JANE@EXAMPLE.COM] is e-mail shaped when the
    letters of the top-level domain may be of either case, and both
    variants return the absent marker on it. *)
Lemma extractEmail_rejects_upper_case_tld :
  email_shaped is_letter (js "JANE@EXAMPLE.COM")
  /\ substring (js "JANE@EXAMPLE.COM") (js "JANE@EXAMPLE.COM")
  /\ Part000.extractEmail (js "JANE@EXAMPLE.COM") = None
  /\ Index.extractEmail (js "JANE@EXAMPLE.COM") = None.
Proof.
  split; [|split; [|split]].
  - exists (js "JANE"), (js "EXAMPLE"), (js "COM").
    repeat split; try done; simpl; lia.
  - by exists [], [].
  - vm_compute. reflexivity.
  - vm_compute. reflexivity.
Qed.

(** The example of the specification. *)
Example extract_example_contact :
  let t := js "Contact: Jane Doe jane.doe@example.com, phone 9876543210" in
  Part000.extractEmail t = Some (js "jane.doe@example.com")
  /\ Part000.extractPhone t = Some (js "9876543210")
  /\ Index.extractEmail t = Some (js "jane.doe@example.com")
  /\ Index.extractPhone t = Some (js "9876543210").
Proof. repeat split; vm_compute; reflexivity. Qed.

(** *** Every result is a part of the text *)

Lemma substring_refl s : substring s s.
Proof. exists [], []. by rewrite app_nil_r. Qed.

Lemma substring_trans a b c : substring a b -> substring b c -> substring a c.
Proof.
  intros (p1 & q1 & ->) (p2 & q2 & ->). exists (p2 ++ p1), (q1 ++ q2).
  by rewrite <- !app_assoc.
Qed.

Lemma occurs_at_substring i w s : occurs_at i w s -> substring w s.
Proof. intros (pre & post & -> & _). by exists pre, post. Qed.

Lemma trimStart_suffix : forall s, exists pre, s = pre ++ trimStart s.
Proof.
  induction s as [|c s [pre IH]]; [by exists []|]. simpl.
  destruct (is_space c).
  - exists (c :: pre). simpl. by f_equal.
  - by exists [].
Qed.

Lemma trimEnd_prefix s : exists post, s = trimEnd s ++ post.
Proof.
  unfold trimEnd. destruct (trimStart_suffix (rev s)) as [pre H].
  exists (rev pre). rewrite <- rev_app_distr, <- H. by rewrite rev_involutive.
Qed.

Lemma trim_substring s : substring (trim s) s.
Proof.
  unfold trim. destruct (trimStart_suffix s) as [pre H].
  destruct (trimEnd_prefix (trimStart s)) as [post H'].
  exists pre, post. by rewrite <- H', <- H.
Qed.

Lemma split_lf_go_substring : forall s cur p,
  In p (split_str_go [LF] 0 cur s) -> substring p (rev cur ++ s).
Proof.
  induction s as [|x s IH]; intros cur p Hp.
  - destruct Hp as [<-|[]]. rewrite app_nil_r. apply substring_refl.
  - destruct (cu_eqb LF x) eqn:E.
    + assert (x = LF) as -> by (symmetry; by apply N.eqb_eq).
      rewrite split_lf_at_lf in Hp. destruct Hp as [<-|Hp].
      * by exists [], (LF :: s).
      * apply IH in Hp. simpl in Hp. destruct Hp as (pre & post & ->).
        exists (rev cur ++ LF :: pre), post. by rewrite <- app_assoc.
    + rewrite split_lf_other in Hp by done. apply IH in Hp.
      simpl in Hp. by rewrite <- app_assoc in Hp.
Qed.

Lemma split_lf_substring t p : In p (split_str [LF] t) -> substring p t.
Proof. apply (split_lf_go_substring t []). Qed.

Lemma find_In {A} (f : A -> bool) l x : List.find f l = Some x -> In x l.
Proof. intros H. by apply find_some in H as [H _]. Qed.

Lemma trimmed_lines_In t r :
  In r (trimmed_lines t) -> exists line, In line (split_str [LF] t) /\ r = trim line.
Proof.
  unfold trimmed_lines. intros H. apply list_elem_of_In in H.
  apply list_elem_of_filter in H as [_ H]. apply list_elem_of_fmap in H as (line & -> & H).
  exists line. split; [by apply list_elem_of_In | done].
Qed.

Lemma first_name_line_In ok t r :
  first_name_line ok t = Some r -> In r (trimmed_lines t).
Proof.
  unfold first_name_line. intros H. apply find_In in H.
  apply list_elem_of_In in H. apply list_elem_of_In.
  by apply (subseteq_take 6 (trimmed_lines t)).
Qed.

Lemma first_match_or_null_Some re t m :
  Index.first_match_or_null re t = Some m -> str_match false re t = Some m.
Proof.
  unfold Index.first_match_or_null.
  destruct (str_match false re t) as [w|]; [|done]. by destruct (nonempty w).
Qed.

Lemma str_match_substring ic re t m : str_match ic re t = Some m -> substring m t.
Proof.
  intros H. apply str_match_Some in H as (_ & i & Hocc & _).
  by eapply occurs_at_substring.
Qed.

(** C10.  Whatever [extractEmail], [extractPhone] or [extractName] of
    either variant returns, other than the absent marker, is a run of
    consecutive code units of the text; the result of [extractName] is
    moreover one of the lines of the text, trimmed. *)
Theorem extractors_return_substrings v f t r :
  extract v f t = Some r ->
  substring r t
  /\ (f = Name -> exists line, In line (split_str [LF] t) /\ r = trim line).
Proof.
  intros H.
  assert (f = Name -> exists line, In line (split_str [LF] t) /\ r = trim line) as Hname.
  { intros ->. apply trimmed_lines_In, (first_name_line_In name_line_ok).
    destruct (extractName_first_line t) as [H1 H2].
    destruct v; simpl in H; [by rewrite <- H2 | by rewrite <- H1]. }
  split; [|exact Hname].
  destruct f.
  - destruct v; simpl in H.
    + apply first_match_or_null_Some in H. by eapply str_match_substring.
    + by eapply str_match_substring.
  - destruct v; simpl in H.
    + apply first_match_or_null_Some in H. by eapply str_match_substring.
    + by eapply str_match_substring.
  - destruct (Hname eq_refl) as (line & Hin & ->).
    eapply substring_trans; [apply trim_substring | by apply split_lf_substring].
Qed.

(** C10 (witness).  The name found in a two-line text with a carriage
    return and spaces around it. *)
Lemma extractors_return_substrings_witness :
  substring (js "Jane Doe")
    (js "  Jane Doe " ++ [CR; LF] ++ js "jane.doe@example.com")
  /\ (Name = Name ->
      exists line,
        In line (split_str [LF] (js "  Jane Doe " ++ [CR; LF] ++ js "jane.doe@example.com"))
        /\ js "Jane Doe" = trim line).
Proof.
  apply (extractors_return_substrings Part000Js Name).
  vm_compute. reflexivity.
Defined.

(* ===================================================================== *)
(** ** The handlers                                                       *)
(* ===================================================================== *)

Lemma str_eqb_refl s : str_eqb s s = true.
Proof. induction s as [|c s IH]; [done|]. simpl. unfold cu_eqb. by rewrite N.eqb_refl. Qed.

Lemma new_events_same w : new_events w w = [].
Proof. unfold new_events. by rewrite drop_all. Qed.

Lemma new_events_app w f l :
  new_events w {| fs := f; trace := trace w ++ l |} = l.
Proof. unfold new_events. simpl. by rewrite drop_app_length. Qed.

(** *** parse-resume *)

Lemma supported_extension_tests name :
  supported_extension name
  = str_eqb (toLowerCase (extname name)) (js ".pdf")
    || str_eqb (toLowerCase (extname name)) (js ".docx").
Proof. reflexivity. Qed.

(** C8.  Both variants of parse-resume answer a request without a file
    with 400 and [No file uploaded], touching nothing.  With a file (that
    multer has staged), the extension of its name decides, compared in
    lower case: when it is neither PDF nor DOCX the answer is 400 and
    [Only PDF or DOCX allowed] and no decoder is called; when it is one of
    the two a decoder is called and the answer is a 200 or the 500 of a
    failed extraction. *)
Theorem parse_resume_validation v P file w :
  staged file w ->
  match file with
  | None =>
      parse_resume_of v P file w
      = (Normal (error_response 400 "No file uploaded"), w)
  | Some f =>
      let out := parse_resume_of v P file w in
      if supported_extension (originalname f)
      then (exists r, fst out = Normal r
              /\ (status r = 200 \/ r = error_response 500 "Failed to parse resume"))
           /\ existsb decoder_event (new_events w (snd out)) = true
      else fst out = Normal (error_response 400 "Only PDF or DOCX allowed")
           /\ existsb decoder_event (new_events w (snd out)) = false
  end.
Proof.
  intros Hst. destruct file as [f|]; [|by destruct v].
  destruct Hst as [d Hd]. cbv zeta. rewrite supported_extension_tests.
  destruct v; unfold parse_resume_of, Index.parse_resume, Part000.parse_resume;
    destruct (str_eqb (toLowerCase (extname (originalname f))) (js ".pdf"));
    [| destruct (str_eqb (toLowerCase (extname (originalname f))) (js ".docx")) |
     | destruct (str_eqb (toLowerCase (extname (originalname f))) (js ".docx"))];
    cbn [orb]; run; rewrite ?Hd; try destruct (pdfParse P d);
    try destruct (mammoth P (path f) (Some d));
    steps; rewrite ?Hd; steps;
    rewrite ?new_events_same, ?new_events_app;
    (split; [try (eexists; split; [reflexivity | auto]) | reflexivity]);
    reflexivity.
Qed.

(** C8 (witness).  An upload named notes.txt, staged, handled by
    [src/unnamed/part_000]. *)
Lemma parse_resume_validation_witness :
  let P := example_platform (Normal (Some (js "Jane Doe"))) prose_reply in
  let out := parse_resume_of Part000Js P (Some notes_txt) staged_world in
  if supported_extension (originalname notes_txt)
  then (exists r, fst out = Normal r
          /\ (status r = 200 \/ r = error_response 500 "Failed to parse resume"))
       /\ existsb decoder_event (new_events staged_world (snd out)) = true
  else fst out = Normal (error_response 400 "Only PDF or DOCX allowed")
       /\ existsb decoder_event (new_events staged_world (snd out)) = false.
Proof.
  apply (parse_resume_validation Part000Js
           (example_platform (Normal (Some (js "Jane Doe"))) prose_reply)
           (Some notes_txt) staged_world).
  simpl. eexists. vm_compute. reflexivity.
Defined.

(** The extension is compared regardless of letter case. *)
Example supported_extension_examples :
  map supported_extension
    [js "cv.pdf"; js "CV.PDF"; js "cv.Docx"; js "notes.txt"; js "cv"; js ".pdf";
     js "cv.pdf.exe"; js "archive.tar.docx"]
  = [true; true; true; false; false; false; false; true].
Proof. vm_compute. reflexivity. Qed.

(** X5.  In [src/unnamed/part_000] every answer to an upload other than
    the 500 (the 200 of a successful extraction, the 400 of an unsupported
    extension) comes with the staged file unlinked, exactly once. *)
Lemma Part000_parse_resume_unlinks_once P f w :
  staged (Some f) w ->
  let out := Part000.parse_resume P (Some f) w in
  exists r, fst out = Normal r
    /\ (r <> error_response 500 "Failed to parse resume" ->
        fs (snd out) = delete (path f) (fs w)
        /\ unlink_count (path f) (new_events w (snd out)) = 1).
Proof.
  intros [d Hd]. cbv zeta. unfold Part000.parse_resume.
  destruct (str_eqb (toLowerCase (extname (originalname f))) (js ".pdf"));
    [| destruct (str_eqb (toLowerCase (extname (originalname f))) (js ".docx"))];
    run; rewrite ?Hd; try destruct (pdfParse P d);
    try destruct (mammoth P (path f) (Some d));
    steps; rewrite ?Hd; steps;
    rewrite ?new_events_same, ?new_events_app;
    eexists; (split; [reflexivity|]); intros Hr; try done;
    cbn [unlink_count]; rewrite str_eqb_refl; done.
Qed.

(** X6.  In [src/unnamed/part_000] the 500 of a failed extraction leaves
    the staged file where it is: nothing was unlinked. *)
Lemma Part000_parse_resume_failure_keeps_file P f w :
  staged (Some f) w ->
  let out := Part000.parse_resume P (Some f) w in
  fst out = Normal (error_response 500 "Failed to parse resume") ->
  fs (snd out) = fs w /\ unlink_count (path f) (new_events w (snd out)) = 0.
Proof.
  intros [d Hd]. cbv zeta. unfold Part000.parse_resume.
  destruct (str_eqb (toLowerCase (extname (originalname f))) (js ".pdf"));
    [| destruct (str_eqb (toLowerCase (extname (originalname f))) (js ".docx"))];
    run; rewrite ?Hd; try destruct (pdfParse P d);
    try destruct (mammoth P (path f) (Some d));
    steps; rewrite ?Hd; steps;
    rewrite ?new_events_same, ?new_events_app; intros Hr; try done.
Qed.

(** X5 (witness).  A staged cv.pdf that decodes. *)
Lemma Part000_parse_resume_unlinks_once_witness :
  let out := Part000.parse_resume
               (example_platform (Normal (Some (js "Jane Doe"))) prose_reply)
               (Some cv_pdf) staged_world in
  exists r, fst out = Normal r
    /\ (r <> error_response 500 "Failed to parse resume" ->
        fs (snd out) = delete (path cv_pdf) (fs staged_world)
        /\ unlink_count (path cv_pdf) (new_events staged_world (snd out)) = 1).
Proof.
  apply (Part000_parse_resume_unlinks_once
           (example_platform (Normal (Some (js "Jane Doe"))) prose_reply)
           cv_pdf staged_world).
  simpl. eexists. vm_compute. reflexivity.
Defined.

(** X6 (witness).  A staged cv.pdf whose decoder throws. *)
Lemma Part000_parse_resume_failure_keeps_file_witness :
  let out := Part000.parse_resume (example_platform (Throw (External 1)) prose_reply)
               (Some cv_pdf) staged_world in
  fs (snd out) = fs staged_world
  /\ unlink_count (path cv_pdf) (new_events staged_world (snd out)) = 0.
Proof.
  apply (Part000_parse_resume_failure_keeps_file
           (example_platform (Throw (External 1)) prose_reply) cv_pdf staged_world).
  - simpl. eexists. vm_compute. reflexivity.
  - vm_compute. reflexivity.
Defined.

(** X7.  The handler of [src/index.js] never unlinks: it leaves the
    upload directory as it found it. *)
Lemma Index_parse_resume_never_unlinks P file w :
  let out := Index.parse_resume P file w in
  fs (snd out) = fs w /\ unlink_count (default [] (path <$> file)) (new_events w (snd out)) = 0.
Proof.
  cbv zeta. unfold Index.parse_resume. destruct file as [f|].
  - destruct (str_eqb (toLowerCase (extname (originalname f))) (js ".pdf"));
      [| destruct (str_eqb (toLowerCase (extname (originalname f))) (js ".docx"))];
      run; try destruct (fs w !! path f) as [d|]; try destruct (pdfParse P d);
      try destruct (mammoth P (path f) _);
      steps; rewrite ?new_events_same, ?new_events_app; done.
  - run. by rewrite new_events_same.
Qed.

(** C2 (failing inputs).  An uploaded cv.pdf whose decoder throws: the
    handler of [src/unnamed/part_000] answers 500 and the staged file is
    still there, never unlinked.  The same upload decoded successfully by
    the handler of [src/index.js]: the answer is 200 and the staged file
    is still there, never unlinked. *)
Theorem parse_resume_leaves_staged_file :
  let out := Part000.parse_resume (example_platform (Throw (External 1)) prose_reply)
               (Some cv_pdf) staged_world in
  let out' := Index.parse_resume
                (example_platform (Normal (Some (js "Jane Doe"))) prose_reply)
                (Some cv_pdf) staged_world in
  (fst out = Normal (error_response 500 "Failed to parse resume")
   /\ fs (snd out) !! path cv_pdf = Some (js "%PDF-1.4")
   /\ unlink_count (path cv_pdf) (trace (snd out)) = 0)
  /\ (exists r, fst out' = Normal r /\ status r = 200)
  /\ fs (snd out') !! path cv_pdf = Some (js "%PDF-1.4")
  /\ unlink_count (path cv_pdf) (trace (snd out')) = 0.
Proof.
  cbv zeta. split; [|split; [|split]].
  - vm_compute. repeat split; reflexivity.
  - eexists. vm_compute. split; reflexivity.
  - vm_compute. reflexivity.
  - vm_compute. reflexivity.
Qed.

(** *** The three endpoints that ask the model *)

(** C3 (failing inputs).  A reply without any bracket decodes to the
    absent marker, and each of the three handlers of [src/index.js] then
    answers 200: generate-questions with [questions] set to [null], the
    other two with the body [null]. *)
Theorem Index_absent_decode_answers_200 :
  let P := example_platform (Throw (External 1)) prose_reply in
  Index.extractJSON prose_reply = Normal VNull
  /\ fst (Index.generate_questions P (VObj []) staged_world)
     = Normal (ok_response (VObj [(js "questions", VNull)]))
  /\ fst (Index.grade_answer P grade_body staged_world) = Normal (ok_response VNull)
  /\ fst (Index.final_summary P summary_body staged_world) = Normal (ok_response VNull).
Proof. cbv zeta. repeat split; vm_compute; reflexivity. Qed.

(** C7 (failing input).  A candidate with a name and no [answers] field:
    the handler of [src/index.js] asks the model and answers 200, where
    the handler of [src/unnamed/part_000] answers 400 with
    [Missing candidate data] and asks nothing. *)
Theorem Index_final_summary_asks_model_without_answers :
  let P := example_platform (Throw (External 1)) prose_reply in
  let out := Index.final_summary P summary_body_no_answers staged_world in
  (exists r, fst out = Normal r /\ status r = 200)
  /\ existsb generate_event (trace (snd out)) = true
  /\ Part000.final_summary P summary_body_no_answers staged_world
     = (Normal (error_response 400 "Missing candidate data"), staged_world).
Proof.
  cbv zeta. split; [|split].
  - eexists. vm_compute. split; reflexivity.
  - vm_compute. reflexivity.
  - vm_compute. reflexivity.
Qed.

(** X3.  In [src/unnamed/part_000], whenever the model was asked and its
    reply decodes to the absent marker, the answer is the 500 of the
    endpoint, with its fixed message. *)
Lemma Part000_absent_decode_answers_500 e P req_body w prompt reply :
  let out := handler_of Part000Js e P req_body w in
  In (EvGenerate prompt) (new_events w (snd out)) ->
  generateContent P prompt = Normal reply ->
  Part000.extractJSON reply = Normal VNull ->
  fst out = Normal (error_response 500 (failure_message e)).
Proof.
  cbv zeta.
  destruct e; unfold handler_of, Part000.generate_questions, Part000.grade_answer,
    Part000.final_summary, failure_message; run; branches; steps;
    rewrite ?new_events_same, ?new_events_app;
    intros Hin Hreply Hnull; cbn [In] in Hin; try done;
    destruct Hin as [[= <-]|[]]; try congruence.
  all: match goal with
       | H1 : generateContent ?Q ?p = Normal ?x, H2 : generateContent ?Q ?p = Normal ?y,
         H3 : Part000.extractJSON ?x = Normal ?v,
         H5 : Part000.extractJSON ?y = Normal VNull,
         H4 : negb (truthy ?v) = false |- _ =>
           rewrite H1 in H2; injection H2 as ->; rewrite H5 in H3;
           injection H3 as <-; discriminate H4
       end.
Qed.

(** X4.  In [src/unnamed/part_000], a body without [candidate], or whose
    [candidate] is an object without [answers], is answered with 400 and
    [Missing candidate data], and nothing is asked of the model. *)
Lemma Part000_final_summary_missing_data P req_body w c :
  get_prop req_body (js "candidate") = Normal c ->
  c = VUndefined \/ (exists ms, c = VObj ms /\ lookup_member (js "answers") ms = None) ->
  Part000.final_summary P req_body w
  = (Normal (error_response 400 "Missing candidate data"), w).
Proof.
  intros Hc Hmiss. unfold Part000.final_summary. run. rewrite Hc.
  destruct Hmiss as [->|(ms & -> & Hms)]; [done|].
  cbn [truthy negb get_prop]. by rewrite Hms.
Qed.

(** X3 (witness).  grade-answer, with a model that replies in prose. *)
Lemma Part000_absent_decode_answers_500_witness :
  fst (handler_of Part000Js GradeAnswer
         (example_platform (Throw (External 1)) prose_reply) grade_body staged_world)
  = Normal (error_response 500 (failure_message GradeAnswer)).
Proof.
  apply (Part000_absent_decode_answers_500 GradeAnswer
           (example_platform (Throw (External 1)) prose_reply) grade_body staged_world
           (Part000.grading_prompt (js "What is a closure?")
              (js "A function with its scope."))
           prose_reply).
  - vm_compute. left. reflexivity.
  - reflexivity.
  - vm_compute. reflexivity.
Defined.

(** X4 (witness).  A candidate with a name and no [answers]. *)
Lemma Part000_final_summary_missing_data_witness :
  Part000.final_summary (example_platform (Throw (External 1)) prose_reply)
    summary_body_no_answers staged_world
  = (Normal (error_response 400 "Missing candidate data"), staged_world).
Proof.
  apply (Part000_final_summary_missing_data
           (example_platform (Throw (External 1)) prose_reply)
           summary_body_no_answers staged_world
           (VObj [(js "name", VStr (js "Ann"))])).
  - vm_compute. reflexivity.
  - right. eexists. split; [reflexivity | vm_compute; reflexivity].
Defined.

(** In [src/index.js], only a missing (or falsy) [candidate] is answered
    with that 400. *)
Lemma Index_final_summary_missing_candidate P req_body w c :
  get_prop req_body (js "candidate") = Normal c -> truthy c = false ->
  Index.final_summary P req_body w
  = (Normal (error_response 400 "Missing candidate data"), w).
Proof.
  intros Hc Ht. unfold Index.final_summary. run. by rewrite Hc, Ht.
Qed.

(* ===================================================================== *)
(** ** Beyond the claims: the phone pattern                               *)
(* ===================================================================== *)

Lemma digit_test c : set_test false [CDigit] c = is_digit c.
Proof. unfold set_test. simpl. by rewrite orb_false_r. Qed.

Lemma sep_test c : set_test false [CSpace; CChar (ch "-")] c = is_sep c.
Proof.
  unfold set_test, is_sep. cbn [existsb item_test]. rewrite orb_false_r.
  by rewrite (N.eqb_sym (ch "-") c : cu_eqb (ch "-") c = cu_eqb c (ch "-")).
Qed.

Lemma lang_digit c : lang false digit [c] <-> is_digit c = true.
Proof.
  unfold digit. cbn [lang]. rewrite <- digit_test. split.
  - by intros (x & [= <-] & H).
  - intros H. by exists c.
Qed.

Lemma lang_ropt r w : lang false (ropt r) w <-> lang false r w \/ w = [].
Proof. reflexivity. Qed.

Lemma lang_rrep_digit n : forall w,
  lang false (rrep n digit) w <-> length w = n /\ all_digits w = true.
Proof.
  induction n as [|n IH]; intros w; cbn [rrep lang].
  - split; [by intros -> | intros [H _]; by destruct w].
  - split.
    + intros (a & b & -> & (c & -> & Hc) & Hb). apply IH in Hb as [Hl Hd].
      rewrite digit_test in Hc. simpl. rewrite Hc, Hd, Hl. done.
    + intros [Hl Hd]. destruct w as [|c w]; [done|]. simpl in Hl, Hd.
      apply andb_true_iff in Hd as [Hc Hd].
      exists [c], w. split; [done|]. split.
      * by apply lang_digit.
      * apply IH. split; [lia | done].
Qed.

Lemma lang_rrep_upto_digit n : forall w,
  lang false (rrep_upto n digit) w <-> length w <= n /\ all_digits w = true.
Proof.
  induction n as [|n IH]; intros w; cbn [rrep_upto].
  - cbn [lang]. split; [by intros -> | intros [H _]; destruct w; [done | simpl in H; lia]].
  - rewrite lang_ropt. cbn [lang]. split.
    + intros [(a & b & -> & (c & -> & Hc) & Hb)| ->]; [|simpl; split; [lia | done]].
      apply IH in Hb as [Hl Hd]. rewrite digit_test in Hc.
      simpl. rewrite Hc, Hd. split; [lia | done].
    + intros [Hl Hd]. destruct w as [|c w]; [by right|]. left.
      simpl in Hl, Hd. apply andb_true_iff in Hd as [Hc Hd].
      exists [c], w. split; [done|]. split.
      * by apply lang_digit.
      * apply IH. split; [lia | done].
Qed.

Lemma all_digits_app a b : all_digits (a ++ b) = all_digits a && all_digits b.
Proof. apply forallb_app. Qed.

Lemma lang_digits_1_3 w :
  lang false (rrep_range 1 3 digit) w
  <-> 1 <= length w <= 3 /\ all_digits w = true.
Proof.
  unfold rrep_range. cbn [lang Nat.sub]. split.
  - intros (a & b & -> & Ha & Hb). apply lang_rrep_digit in Ha as [Hla Hda].
    apply lang_rrep_upto_digit in Hb as [Hlb Hdb].
    rewrite length_app, all_digits_app, Hda, Hdb. split; [lia | done].
  - intros [Hl Hd]. destruct w as [|c w]; [simpl in Hl; lia|].
    simpl in Hl, Hd. apply andb_true_iff in Hd as [Hc Hd].
    exists [c], w. split; [done|]. split.
    + apply lang_rrep_digit. simpl. by rewrite Hc.
    + apply lang_rrep_upto_digit. split; [lia | done].
Qed.

Lemma lang_sep w : lang false space_or_hyphen w <-> exists c, w = [c] /\ is_sep c = true.
Proof.
  unfold space_or_hyphen. cbn [lang]. split; intros (c & -> & H); exists c;
    (split; [done|]); by rewrite ?sep_test in *.
Qed.

Lemma phone_prefix_lang w :
  lang false (RSeq (ropt (rchar (ch "+")))
                (RSeq (rrep_range 1 3 digit) (ropt space_or_hyphen))) w
  <-> phone_prefix w.
Proof.
  unfold phone_prefix. cbn [lang]. split.
  - intros (plus & w1 & -> & Hp & ds & sep & -> & Hd & Hs).
    change (lang false (rchar (ch "+")) plus \/ plus = []) in Hp.
    change (lang false space_or_hyphen sep \/ sep = []) in Hs.
    apply lang_digits_1_3 in Hd as [Hl Hd].
    exists plus, ds, sep. repeat split; try done; try lia.
    + destruct Hp as [Hp| ->]; [right; by apply lang_rchar | by left].
    + destruct Hs as [Hs| ->]; [right; by apply lang_sep | by left].
  - intros (plus & ds & sep & -> & Hp & Hl & Hd & Hs).
    exists plus, (ds ++ sep). split; [done|]. split.
    { change (lang false (rchar (ch "+")) plus \/ plus = []).
      destruct Hp as [-> | ->]; [by right | left; by apply lang_rchar]. }
    exists ds, sep. split; [done|]. split; [by apply lang_digits_1_3|].
    change (lang false space_or_hyphen sep \/ sep = []).
    destruct Hs as [-> | Hs]; [by right | left; by apply lang_sep].
Qed.

Lemma phone_core_lang w :
  lang false (RAlt (rrep 10 digit)
                (RSeq (rrep 3 digit)
                   (RSeq space_or_hyphen
                      (RSeq (rrep 3 digit)
                         (RSeq space_or_hyphen (rrep 4 digit)))))) w
  <-> phone_core w.
Proof.
  unfold phone_core.
  change (lang false (RAlt ?a ?b) w) with (lang false a w \/ lang false b w).
  rewrite lang_rrep_digit. split.
  - intros [H|H]; [by left|]. right.
    destruct H as (a & w1 & -> & Ha & s1 & w2 & -> & Hs1 & b & w3 & -> & Hb
                   & s2 & c & -> & Hs2 & Hc).
    apply lang_rrep_digit in Ha as [Hla Hda]. apply lang_rrep_digit in Hb as [Hlb Hdb].
    apply lang_rrep_digit in Hc as [Hlc Hdc].
    apply lang_sep in Hs1 as (x1 & -> & Hx1). apply lang_sep in Hs2 as (x2 & -> & Hx2).
    by exists a, x1, b, x2, c.
  - intros [H|H]; [by left|]. right.
    destruct H as (a & s1 & b & s2 & c & -> & Hla & Hlb & Hlc & Hda & Hdb & Hdc & H1 & H2).
    exists a, ([s1] ++ b ++ [s2] ++ c). split; [done|].
    split; [by apply lang_rrep_digit|].
    exists [s1], (b ++ [s2] ++ c). split; [done|].
    split; [apply lang_sep; by exists s1|].
    exists b, ([s2] ++ c). split; [done|]. split; [by apply lang_rrep_digit|].
    exists [s2], c. split; [done|]. split; [apply lang_sep; by exists s2|].
    by apply lang_rrep_digit.
Qed.

(** The pattern of the source denotes the phone shaped strings. *)
Lemma phone_re_lang w : lang false phone_re w <-> phone_shaped w.
Proof.
  unfold phone_re, phone_shaped.
  change (lang false (RSeq ?a ?b) w)
    with (exists p c, w = p ++ c /\ lang false a p /\ lang false b c).
  split; intros (p & c & -> & Hp & Hc); exists p, c; (split; [done|]).
  - apply phone_core_lang in Hc. split; [|done].
    apply lang_ropt in Hp as [Hp| ->]; [right; by apply phone_prefix_lang | by left].
  - apply phone_core_lang in Hc. split; [|done].
    apply lang_ropt. destruct Hp as [-> | Hp]; [by right | left; by apply phone_prefix_lang].
Qed.

Lemma phone_core_nonempty c : phone_core c -> 10 <= length c.
Proof.
  intros [[H _]|(a & s1 & b & s2 & c' & -> & Ha & Hb & Hc & _)]; [lia|].
  rewrite !length_app. simpl. lia.
Qed.

Lemma phone_shaped_length w : phone_shaped w -> 10 <= length w.
Proof.
  intros (p & c & -> & _ & Hc). apply phone_core_nonempty in Hc.
  rewrite length_app. lia.
Qed.

Lemma extractPhone_variants t : Index.extractPhone t = Part000.extractPhone t.
Proof.
  unfold Index.extractPhone, Index.first_match_or_null, Part000.extractPhone.
  destruct (str_match false phone_re t) as [m|] eqn:E; [|done].
  apply str_match_Some in E as [Lm _]. apply phone_re_lang, phone_shaped_length in Lm.
  destruct m; [simpl in Lm; lia | done].
Qed.

(** X8.  [extractPhone] of either variant returns the leftmost part of
    the text that is phone shaped: an optional country prefix (an optional
    plus sign, one to three digits, an optional white space or hyphen)
    followed by ten digits in a row or by groups of three, three and four
    digits with one white space or hyphen between them.  The absent marker
    is returned exactly when the text has no such part.  A result holds at
    least ten code units. *)
Theorem extractPhone_leftmost_phone_shaped v t :
  match extract v Phone t with
  | Some m =>
      phone_shaped m /\ 10 <= length m
      /\ exists i, occurs_at i m t
           /\ forall j w, occurs_at j w t -> phone_shaped w -> i <= j
  | None => forall w, substring w t -> ~ phone_shaped w
  end.
Proof.
  assert (extract v Phone t = str_match false phone_re t) as ->.
  { destruct v; [apply extractPhone_variants | reflexivity]. }
  destruct (str_match false phone_re t) as [m|] eqn:E.
  - apply str_match_Some in E as (Lm & i & Hocc & Hmin).
    apply phone_re_lang in Lm. split; [done|].
    split; [by apply phone_shaped_length|]. exists i. split; [done|].
    intros j w Hj Hw. apply (Hmin j w Hj). by apply phone_re_lang.
  - intros w Hsub Hw. apply (str_match_None false phone_re t E w Hsub).
    by apply phone_re_lang.
Qed.

(** X9.  The two variants of the field heuristics agree: on every text,
    [extractEmail], [extractPhone] and [extractName] of [src/index.js]
    return what those of [src/unnamed/part_000] return. *)
Theorem field_heuristics_variants_agree f t :
  extract IndexJs f t = extract Part000Js f t.
Proof.
  destruct f; simpl.
  - apply extractEmail_variants.
  - apply extractPhone_variants.
  - destruct (extractName_first_line t) as [H1 H2]. by rewrite H1, H2.
Qed.

(* ===================================================================== *)
(** ** Beyond the claims: the shape of a name                             *)
(* ===================================================================== *)

Lemma trimStart_head s c u : trimStart s = c :: u -> is_space c = false.
Proof.
  induction s as [|x s IH]; simpl; [done|].
  destruct (is_space x) eqn:E; [done|]. by intros [= <- _].
Qed.

Lemma trimStart_snoc_nonspace c : is_space c = false ->
  forall l, trimStart (l ++ [c]) = trimStart l ++ [c].
Proof.
  intros Hc. induction l as [|x l IH]; simpl; [by rewrite Hc|].
  by destruct (is_space x).
Qed.

Lemma trimEnd_cons_nonspace c u : is_space c = false -> trimEnd (c :: u) = c :: trimEnd u.
Proof.
  intros Hc. unfold trimEnd. simpl rev. rewrite trimStart_snoc_nonspace by done.
  by rewrite rev_app_distr.
Qed.

Lemma trimStart_idem s : trimStart (trimStart s) = trimStart s.
Proof.
  destruct (trimStart s) as [|c u] eqn:E; [done|].
  simpl. by rewrite (trimStart_head _ _ _ E).
Qed.

Lemma trimEnd_idem s : trimEnd (trimEnd s) = trimEnd s.
Proof. unfold trimEnd. by rewrite rev_involutive, trimStart_idem. Qed.

Lemma trim_idem s : trim (trim s) = trim s.
Proof.
  unfold trim. destruct (trimStart s) as [|c u] eqn:E; [done|].
  pose proof (trimStart_head _ _ _ E) as Hc.
  rewrite trimEnd_cons_nonspace by done. simpl trimStart. rewrite Hc.
  rewrite <- trimEnd_cons_nonspace by done. apply trimEnd_idem.
Qed.

Lemma find_first {A} (ok : A -> bool) : forall l r,
  List.find ok l = Some r ->
  ok r = true
  /\ exists i, l !! i = Some r
       /\ forall j s, j < i -> l !! j = Some s -> ok s = false.
Proof.
  induction l as [|x l IH]; intros r H; simpl in H; [done|].
  destruct (ok x) eqn:E.
  - injection H as <-. split; [done|]. exists 0. split; [done|]. intros; lia.
  - apply IH in H as (Hr & i & Hi & Hmin). split; [done|].
    exists (S i). split; [done|]. intros [|j] s Hj Hs.
    + by injection Hs as <-.
    + apply (Hmin j s); [lia | done].
Qed.

(** X10.  A name returned by [extractName] of either variant is never
    empty and has no white space at either end; it is one of the first six
    non-empty trimmed lines of the text, it passes the line test, and every
    line before it fails the test. *)
Theorem extractName_result_shape v t r :
  extract v Name t = Some r ->
  r <> [] /\ trim r = r /\ name_line_ok r = true
  /\ exists i, i < 6 /\ trimmed_lines t !! i = Some r
       /\ forall j s, j < i -> trimmed_lines t !! j = Some s -> name_line_ok s = false.
Proof.
  intros H.
  assert (first_name_line name_line_ok t = Some r) as Hf.
  { destruct (extractName_first_line t) as [H1 H2].
    destruct v; simpl in H; [by rewrite <- H2 | by rewrite <- H1]. }
  clear H. unfold first_name_line in Hf.
  apply find_first in Hf as (Hok & i & Hi & Hmin).
  apply lookup_take_Some in Hi as [Hi Hlt].
  assert (In r (trimmed_lines t)) as Hin.
  { apply list_elem_of_In. by eapply list_elem_of_lookup_2. }
  assert (nonempty r = true) as Hne.
  { unfold trimmed_lines in Hin. apply list_elem_of_In in Hin.
    by apply list_elem_of_filter in Hin as [Hne _]. }
  apply trimmed_lines_In in Hin as (line & _ & ->).
  split; [by destruct (trim line)|]. split; [apply trim_idem|]. split; [done|].
  exists i. split; [done|]. split; [done|].
  intros j s Hj Hs. apply (Hmin j s Hj). apply lookup_take_Some. split; [done | lia].
Qed.

(** X10 (witness).  The name of a text whose first line is a label. *)
Lemma extractName_result_shape_witness :
  js "Jane Doe" <> []
  /\ trim (js "Jane Doe") = js "Jane Doe"
  /\ name_line_ok (js "Jane Doe") = true
  /\ exists i, i < 6
       /\ trimmed_lines (js "My Resume" ++ [CR; LF] ++ js "  Jane Doe ") !! i
          = Some (js "Jane Doe")
       /\ forall j s, j < i ->
            trimmed_lines (js "My Resume" ++ [CR; LF] ++ js "  Jane Doe ") !! j = Some s ->
            name_line_ok s = false.
Proof.
  apply (extractName_result_shape Part000Js
           (js "My Resume" ++ [CR; LF] ++ js "  Jane Doe ")).
  vm_compute. reflexivity.
Defined.

(* ===================================================================== *)
(** ** Beyond the claims: the handlers                                    *)
(* ===================================================================== *)



(** X13.  grade-answer of either variant answers 400 with [Missing data]
    when [question] or [answer] is missing or falsy, and leaves the world
    as it is: the model is not asked. *)
Theorem grade_answer_missing_data v P req_body w q a :
  get_prop req_body (js "question") = Normal q ->
  get_prop req_body (js "answer") = Normal a ->
  truthy q && truthy a = false ->
  handler_of v GradeAnswer P req_body w
  = (Normal (error_response 400 "Missing data"), w).
Proof.
  intros Hq Ha Ht.
  assert (negb (truthy q) || negb (truthy a) = true) as Hn
    by (destruct (truthy q), (truthy a); done).
  destruct v; unfold handler_of, Index.grade_answer, Part000.grade_answer; run;
    by rewrite Hq, Ha, Hn.
Qed.

(** X13 (witness).  A body with a question and no answer. *)
Lemma grade_answer_missing_data_witness :
  handler_of IndexJs GradeAnswer (example_platform (Throw (External 1)) prose_reply)
    (VObj [(js "question", VStr (js "What is a closure?"))]) staged_world
  = (Normal (error_response 400 "Missing data"), staged_world).
Proof.
  apply (grade_answer_missing_data IndexJs
           (example_platform (Throw (External 1)) prose_reply)
           (VObj [(js "question", VStr (js "What is a closure?"))]) staged_world
           (VStr (js "What is a closure?")) VUndefined);
    vm_compute; reflexivity.
Defined.

(** X14.  A handler that asks the model never touches the upload
    directory, calls no document decoder, and asks the model at most
    once; when it answers 400 it has not asked at all. *)
Theorem model_handlers_effects v e P req_body w :
  let out := handler_of v e P req_body w in
  fs (snd out) = fs w
  /\ (new_events w (snd out) = []
      \/ exists prompt, new_events w (snd out) = [EvGenerate prompt])
  /\ forall r, fst out = Normal r -> status r = 400 -> new_events w (snd out) = [].
Proof.
  cbv zeta.
  destruct v, e; unfold handler_of, Index.generate_questions, Index.grade_answer,
    Index.final_summary, Part000.generate_questions, Part000.grade_answer,
    Part000.final_summary; run; branches; steps;
    rewrite ?new_events_same, ?new_events_app;
    (split; [reflexivity|]); (split; [eauto|]);
    intros r [= <-] Hs; try done.
Qed.



(** X16.  Whenever the model was asked and its reply decodes to a value,
    the handler answers 200 with that value ([questions] wraps it for
    generate-questions); [src/unnamed/part_000] does so for a truthy value
    only. *)
Theorem decoded_reply_answers_200 v e P req_body w prompt reply x :
  let out := handler_of v e P req_body w in
  In (EvGenerate prompt) (new_events w (snd out)) ->
  generateContent P prompt = Normal reply ->
  extractJSON_of v reply = Normal x ->
  (v = Part000Js -> truthy x = true) ->
  fst out = Normal (ok_response (success_body e x)).
Proof.
  cbv zeta.
  destruct v, e; unfold handler_of, extractJSON_of, Index.generate_questions,
    Index.grade_answer, Index.final_summary, Part000.generate_questions,
    Part000.grade_answer, Part000.final_summary, success_body; run; branches;
    steps; rewrite ?new_events_same, ?new_events_app;
    intros Hin Hreply Hx Ht; cbn [In] in Hin; try done;
    destruct Hin as [[= <-]|[]]; try congruence;
    try (specialize (Ht eq_refl));
    repeat match goal with
           | H1 : generateContent ?Q ?p = Normal ?a, H2 : generateContent ?Q ?p = Normal ?b
             |- _ => rewrite H1 in H2; injection H2 as ->
           end;
    repeat match goal with
           | H1 : ?d ?a = Normal ?y, H2 : ?d ?a = Normal ?z |- _ =>
               rewrite H1 in H2; injection H2 as ->
           end;
    try reflexivity;
    match goal with
    | H1 : negb (truthy ?y) = true, H2 : truthy ?y = true |- _ =>
        rewrite H2 in H1; discriminate H1
    end.
Qed.

(** X16 (witness).  grade-answer of [src/unnamed/part_000] with the
    prose-wrapped reply of the specification. *)
Lemma decoded_reply_answers_200_witness :
  fst (handler_of Part000Js GradeAnswer
         (example_platform (Throw (External 1)) prose_wrapped_reply)
         grade_body staged_world)
  = Normal (ok_response (success_body GradeAnswer score_7_good)).
Proof.
  apply (decoded_reply_answers_200 Part000Js GradeAnswer
           (example_platform (Throw (External 1)) prose_wrapped_reply)
           grade_body staged_world
           (Part000.grading_prompt (js "What is a closure?")
              (js "A function with its scope."))
           prose_wrapped_reply score_7_good).
  - vm_compute. left. reflexivity.
  - reflexivity.
  - vm_compute. reflexivity.
  - intros _. reflexivity.
Defined.

(** X17.  parse-resume never touches another upload: every path of the
    upload directory other than the one of the request's own file holds
    after the handler what it held before. *)
Theorem parse_resume_frames_other_uploads v P file w q :
  (forall f, file = Some f -> q <> path f) ->
  fs (snd (parse_resume_of v P file w)) !! q = fs w !! q.
Proof.
  intros Hq.
  destruct v; unfold parse_resume_of, Index.parse_resume, Part000.parse_resume;
    destruct file as [f|]; try specialize (Hq f eq_refl); run; branches; steps;
    try reflexivity; by rewrite lookup_delete_ne.
Qed.

(** X17 (witness).  A second upload survives the handling of cv.pdf. *)
Lemma parse_resume_frames_other_uploads_witness :
  fs (snd (parse_resume_of Part000Js
             (example_platform (Normal (Some (js "Jane Doe"))) prose_reply)
             (Some cv_pdf)
             {| fs := {[ js "/tmp/0a1b2c" := js "%PDF-1.4"; js "/tmp/ffff" := js "other" ]};
                trace := [] |}))
    !! js "/tmp/ffff"
  = fs {| fs := {[ js "/tmp/0a1b2c" := js "%PDF-1.4"; js "/tmp/ffff" := js "other" ]};
          trace := [] |} !! js "/tmp/ffff".
Proof.
  apply (parse_resume_frames_other_uploads Part000Js
           (example_platform (Normal (Some (js "Jane Doe"))) prose_reply)
           (Some cv_pdf)).
  intros f [= <-]. vm_compute. discriminate.
Defined.






(** X20.  generate-questions with a body that holds neither [role] nor
    [stack] asks the model for the default role and the default stack:
    the one call it makes carries the prompt built from them. *)
Theorem generate_questions_defaults v P ms w role_s stack_s :
  lookup_member (js "role") ms = None ->
  lookup_member (js "stack") ms = None ->
  ToString P default_role = Normal role_s ->
  join P default_stack (js ", ") = Normal stack_s ->
  new_events w (snd (handler_of v GenerateQuestions P (VObj ms) w))
  = [EvGenerate (questions_prompt_of v role_s stack_s)].
Proof.
  intros Hr Hs Ht Hj. unfold default_role, default_stack in *.
  destruct v; unfold handler_of, questions_prompt_of, Index.generate_questions,
    Part000.generate_questions, get_prop; rewrite Hr, Hs;
    run; unfold Index.or_default, Part000.or_else;
    cbn [default truthy call_join]; rewrite Ht, Hj; branches; steps;
    by rewrite new_events_app.
Qed.

(** X20 (witness).  The empty body. *)
Lemma generate_questions_defaults_witness :
  new_events staged_world
    (snd (handler_of Part000Js GenerateQuestions
            (example_platform (Throw (External 1)) prose_reply) (VObj []) staged_world))
  = [EvGenerate (questions_prompt_of Part000Js (js "Full Stack Developer")
                   (js "React, Node.js"))].
Proof.
  apply (generate_questions_defaults Part000Js
           (example_platform (Throw (External 1)) prose_reply) [] staged_world);
    reflexivity.
Defined.

(* ===================================================================== *)
(** ** Beyond the claims: the decoder                                     *)
(* ===================================================================== *)

Lemma index_of_absent c : forall s, ~ In c s -> index_of c s = None.
Proof.
  induction s as [|x s IH]; intros H; [done|]. simpl.
  destruct (N.eqb_spec x c) as [->|Hx]; unfold cu_eqb.
  - exfalso. apply H. by left.
  - rewrite (proj2 (N.eqb_neq x c) Hx). rewrite IH; [done|].
    intros Hin. apply H. by right.
Qed.

Lemma last_index_of_absent c : forall s, ~ In c s -> last_index_of c s = None.
Proof.
  induction s as [|x s IH]; intros H; [done|]. simpl.
  rewrite IH by (intros Hin; apply H; by right).
  unfold cu_eqb. destruct (N.eqb_spec x c) as [->|Hx]; [|done].
  exfalso. apply H. by left.
Qed.

Lemma index_of_app_absent c pre s :
  ~ In c pre ->
  index_of c (pre ++ s) = option_map (Nat.add (length pre)) (index_of c s).
Proof.
  induction pre as [|x pre IH]; intros H.
  - simpl. by destruct (index_of c s).
  - simpl. unfold cu_eqb. destruct (N.eqb_spec x c) as [->|Hx].
    + exfalso. apply H. by left.
    + rewrite IH by (intros Hin; apply H; by right).
      by destruct (index_of c s).
Qed.

Lemma last_index_of_app c a b :
  last_index_of c (a ++ b)
  = match last_index_of c b with
    | Some j => Some (length a + j)
    | None => last_index_of c a
    end.
Proof.
  induction a as [|x a IH]; simpl.
  - by destruct (last_index_of c b).
  - rewrite IH. by destruct (last_index_of c b).
Qed.

(** The candidate of a payload [o inner c] between a prefix without [o]
    and a suffix without [c]. *)
Lemma bracket_candidate_payload o c pre inner post :
  ~ In o pre -> ~ In c post ->
  bracket_candidate o c (pre ++ [o] ++ inner ++ [c] ++ post)
  = Some (length pre, [o] ++ inner ++ [c]).
Proof.
  intros Ho Hc. unfold bracket_candidate.
  rewrite index_of_app_absent by done. cbn [app index_of].
  unfold cu_eqb at 1. rewrite N.eqb_refl. cbn [option_map].
  replace (pre ++ o :: inner ++ c :: post) with ((pre ++ o :: inner) ++ c :: post)
    by (by rewrite <- app_assoc).
  rewrite last_index_of_app. cbn [last_index_of].
  rewrite last_index_of_absent by done. unfold cu_eqb. rewrite N.eqb_refl.
  rewrite length_app. cbn [length].
  rewrite !Nat.add_0_r.
  replace (length pre <? length pre + S (length inner)) with true
    by (symmetry; apply Nat.ltb_lt; lia).
  do 2 f_equal. unfold slice.
  replace ((pre ++ o :: inner) ++ c :: post)
    with (pre ++ (o :: inner ++ [c]) ++ post)
    by (rewrite <- !app_assoc; simpl; by rewrite <- app_assoc).
  rewrite drop_app_length.
  replace (S (length pre + S (length inner)) - length pre)
    with (length (o :: inner ++ [c])) by (simpl; rewrite length_app; simpl; lia).
  by rewrite take_app_length.
Qed.

(** Another opening bracket can only come after the payload starts. *)
Lemma bracket_candidate_later o' c' o pre rest i w :
  ~ In o' pre -> o <> o' ->
  bracket_candidate o' c' (pre ++ o :: rest) = Some (i, w) -> length pre < i.
Proof.
  intros Hpre Hne. unfold bracket_candidate.
  rewrite index_of_app_absent by done. cbn [index_of]. unfold cu_eqb.
  rewrite (proj2 (N.eqb_neq o o') Hne).
  destruct (index_of o' rest) as [k|]; [|done]. cbn [option_map].
  destruct (last_index_of c' (pre ++ o :: rest)) as [j|]; [|done].
  destruct (_ <? _); [|done]. intros [= <- _]. lia.
Qed.

Lemma bracket_substring_payload o c pre inner post :
  (o = ch "{" /\ c = ch "}") \/ (o = ch "[" /\ c = ch "]") ->
  ~ In (ch "{") pre -> ~ In (ch "[") pre -> ~ In c post ->
  bracket_substring (pre ++ [o] ++ inner ++ [c] ++ post) = Some ([o] ++ inner ++ [c]).
Proof.
  intros Hoc Hb Hs Hc. unfold bracket_substring.
  destruct Hoc as [[-> ->]|[-> ->]].
  - rewrite bracket_candidate_payload by done.
    destruct (bracket_candidate (ch "[") (ch "]") _) as [[j w']|] eqn:E; [|done].
    apply (bracket_candidate_later (ch "[") (ch "]") (ch "{")) in E; [|done..].
    by rewrite (proj2 (Nat.ltb_lt _ _) E).
  - rewrite (bracket_candidate_payload (ch "[") (ch "]")) by done.
    destruct (bracket_candidate (ch "{") (ch "}") _) as [[j w']|] eqn:E; [|done].
    apply (bracket_candidate_later (ch "{") (ch "}") (ch "[")) in E; [|done..].
    assert ((j <? length pre) = false) as -> by (apply Nat.ltb_ge; lia). done.
Qed.

(** X21.  A JSON payload in prose is found: when the text is an object
    or array literal between a prefix that holds no opening brace or
    square bracket and a suffix that does not hold its closing bracket,
    the whole text does not parse and the literal parses to [x], both
    variants of the decoder return [x]. *)
Theorem prose_wrapped_payload_decodes v o c pre inner post x e :
  (o = ch "{" /\ c = ch "}") \/ (o = ch "[" /\ c = ch "]") ->
  ~ In (ch "{") pre -> ~ In (ch "[") pre -> ~ In c post ->
  JSON_parse (pre ++ [o] ++ inner ++ [c] ++ post) = Throw e ->
  JSON_parse ([o] ++ inner ++ [c]) = Normal x ->
  extractJSON_of v (pre ++ [o] ++ inner ++ [c] ++ post) = Normal x.
Proof.
  intros Hoc Hb Hs Hc Hwhole Hx.
  pose proof (bracket_substring_payload o c pre inner post Hoc Hb Hs Hc) as Hsub.
  destruct v; unfold extractJSON_of, Index.extractJSON, Part000.extractJSON;
    rewrite Hwhole, json_re_match, Hsub, Hx; reflexivity.
Qed.

(** X21 (witness).  The prose-wrapped reply of the specification. *)
Lemma prose_wrapped_payload_decodes_witness :
  extractJSON_of IndexJs
    ((js "Here you go:" ++ [LF]) ++ [ch "{"]
     ++ (quoted (js "score") ++ js ":7," ++ quoted (js "feedback") ++ js ":"
         ++ quoted (js "Good"))
     ++ [ch "}"] ++ ([LF] ++ js "Hope that helps"))
  = Normal score_7_good.
Proof.
  apply (prose_wrapped_payload_decodes IndexJs (ch "{") (ch "}")
           (js "Here you go:" ++ [LF])
           (quoted (js "score") ++ js ":7," ++ quoted (js "feedback") ++ js ":"
            ++ quoted (js "Good"))
           ([LF] ++ js "Hope that helps") score_7_good SyntaxError).
  - left. split; reflexivity.
  - vm_compute. intros H. repeat (destruct H as [H|H]; [discriminate H|]). exact H.
  - vm_compute. intros H. repeat (destruct H as [H|H]; [discriminate H|]). exact H.
  - vm_compute. intros H. repeat (destruct H as [H|H]; [discriminate H|]). exact H.
  - vm_compute. reflexivity.
  - vm_compute. reflexivity.
Defined.

(** X22.  A reply that holds no opening brace and no opening square
    bracket never makes the decoder throw, in either variant: the result
    is the strict parse when it succeeds and the absent marker
    otherwise. *)
Theorem decode_without_brackets v t :
  ~ In (ch "{") t -> ~ In (ch "[") t ->
  extractJSON_of v t
  = match JSON_parse t with
    | Normal x => Normal x
    | Throw _ => Normal VNull
    end.
Proof.
  intros Hb Hs.
  assert (bracket_substring t = None) as Hsub.
  { unfold bracket_substring, bracket_candidate.
    by rewrite !index_of_absent by done. }
  destruct v; unfold extractJSON_of, Index.extractJSON, Part000.extractJSON;
    rewrite json_re_match, Hsub; reflexivity.
Qed.

(** X22 (witness).  A reply in prose. *)
Lemma decode_without_brackets_witness :
  extractJSON_of IndexJs prose_reply
  = match JSON_parse prose_reply with
    | Normal x => Normal x
    | Throw _ => Normal VNull
    end.
Proof.
  apply (decode_without_brackets IndexJs prose_reply);
    vm_compute; intros H; repeat (destruct H as [H|H]; [discriminate H|]); exact H.
Defined.

(* ===================================================================== *)
(** ** Beyond the claims: bounds and edge cases                           *)
(* ===================================================================== *)

Lemma split_lf_app : forall t cur t',
  split_str_go [LF] 0 cur (t ++ LF :: t')
  = split_str_go [LF] 0 cur t ++ split_str_go [LF] 0 [] t'.
Proof.
  induction t as [|x t IH]; intros cur t'.
  - change ([] ++ LF :: t') with (LF :: t'). rewrite split_lf_at_lf. reflexivity.
  - change ((x :: t) ++ LF :: t') with (x :: (t ++ LF :: t')).
    destruct (cu_eqb LF x) eqn:E.
    + assert (x = LF) as -> by (symmetry; by apply N.eqb_eq).
      rewrite !split_lf_at_lf. rewrite IH. reflexivity.
    + rewrite !split_lf_other by done. apply IH.
Qed.

Lemma trimmed_lines_app t t' :
  trimmed_lines (t ++ [LF] ++ t') = trimmed_lines t ++ trimmed_lines t'.
Proof.
  unfold trimmed_lines, split_str. simpl app. rewrite split_lf_app.
  by rewrite map_app, filter_app.
Qed.

(** X23.  [extractName] reads no further than the sixth non-empty line:
    once a text has six of them, whatever follows on later lines does not
    change the result. *)
Theorem extractName_ignores_later_lines v t t' :
  6 <= length (trimmed_lines t) ->
  extract v Name (t ++ [LF] ++ t') = extract v Name t.
Proof.
  intros Hlen.
  assert (forall u, extract v Name u = first_name_line name_line_ok u) as Hx.
  { intros u. destruct (extractName_first_line u) as [H1 H2]. by destruct v. }
  rewrite !Hx. unfold first_name_line. rewrite trimmed_lines_app.
  by rewrite take_app_le.
Qed.

(** X23 (witness).  Six numbered lines, then a name. *)
Lemma extractName_ignores_later_lines_witness :
  extract IndexJs Name
    ((js "1" ++ [LF] ++ js "2" ++ [LF] ++ js "3" ++ [LF] ++ js "4" ++ [LF]
      ++ js "5" ++ [LF] ++ js "6") ++ [LF] ++ js "Jane Doe")
  = extract IndexJs Name
      (js "1" ++ [LF] ++ js "2" ++ [LF] ++ js "3" ++ [LF] ++ js "4" ++ [LF]
       ++ js "5" ++ [LF] ++ js "6").
Proof.
  apply (extractName_ignores_later_lines IndexJs).
  vm_compute. lia.
Defined.

Lemma substring_In c w t : substring w t -> In c w -> In c t.
Proof.
  intros (pre & post & ->) H. apply in_or_app. right. apply in_or_app. by left.
Qed.

Lemma email_shaped_at tld w : email_shaped tld w -> In (ch "@") w.
Proof.
  intros (l & d & t & -> & _). apply in_or_app. right. by left.
Qed.

Lemma all_digits_head w : 1 <= length w -> all_digits w = true ->
  exists c, In c w /\ is_digit c = true.
Proof.
  destruct w as [|c w]; simpl; [lia|]. intros _ H.
  apply andb_true_iff in H as [H _]. exists c. split; [by left | done].
Qed.

Lemma phone_shaped_digit w : phone_shaped w -> exists c, In c w /\ is_digit c = true.
Proof.
  intros (p & core & -> & _ & Hc).
  assert (exists c, In c core /\ is_digit c = true) as (c & Hin & Hd).
  { destruct Hc as [[Hl Hd]|(a & s1 & b & s2 & c' & -> & Ha & _ & _ & Hda & _)].
    - apply all_digits_head; [lia | done].
    - destruct (all_digits_head a) as (c & Hin & Hd); [lia | done|].
      exists c. split; [|done]. apply in_or_app. by left. }
  exists c. split; [|done]. apply in_or_app. by right.
Qed.

Lemma has_letter_substring w t : substring w t -> has_letter w = true -> has_letter t = true.
Proof.
  intros (pre & post & ->) H. unfold has_letter in *.
  rewrite !existsb_app, H. by rewrite orb_true_r.
Qed.

Lemma extractName_passes_test v t r :
  extract v Name t = Some r -> name_line_ok r = true /\ substring r t.
Proof.
  intros H.
  assert (first_name_line name_line_ok t = Some r) as Hf.
  { destruct (extractName_first_line t) as [H1 H2].
    destruct v; simpl in H; [by rewrite <- H2 | by rewrite <- H1]. }
  split.
  - unfold first_name_line in Hf. by apply find_some in Hf as [_ Hf].
  - apply first_name_line_In, trimmed_lines_In in Hf as (line & Hin & ->).
    eapply substring_trans; [apply trim_substring | by apply split_lf_substring].
Qed.

(** X24.  Each extractor needs its characters: a text without an at
    sign has no e-mail address, a text without a digit has no phone number
    and a text without a letter A-Z or a-z has no name, in either variant;
    so a blank document gives three absent fields. *)
Theorem extractors_need_their_characters v t :
  (~ In (ch "@") t -> extract v Email t = None)
  /\ (forallb (fun c => negb (is_digit c)) t = true -> extract v Phone t = None)
  /\ (has_letter t = false -> extract v Name t = None).
Proof.
  split; [|split].
  - intros Hat. destruct (extract v Email t) as [m|] eqn:E; [|done]. exfalso.
    assert (str_match false email_re t = Some m) as Hm.
    { destruct v; simpl in E; [by rewrite extractEmail_variants in E | done]. }
    pose proof (str_match_substring _ _ _ _ Hm) as Hsub.
    apply str_match_Some in Hm as [Lm _]. apply email_re_lang in Lm.
    apply Hat. by apply (substring_In _ m t Hsub), (email_shaped_at is_lower).
  - intros Hd. destruct (extract v Phone t) as [m|] eqn:E; [|done]. exfalso.
    assert (str_match false phone_re t = Some m) as Hm.
    { destruct v; simpl in E; [by rewrite extractPhone_variants in E | done]. }
    pose proof (str_match_substring _ _ _ _ Hm) as Hsub.
    apply str_match_Some in Hm as [Lm _].
    apply phone_re_lang, phone_shaped_digit in Lm as (c & Hin & Hc).
    apply (substring_In _ m t Hsub) in Hin.
    rewrite forallb_forall in Hd. specialize (Hd c Hin). by rewrite Hc in Hd.
  - intros Hl. destruct (extract v Name t) as [r|] eqn:E; [|done]. exfalso.
    apply extractName_passes_test in E as [Hok Hsub].
    unfold name_line_ok in Hok. apply andb_true_iff in Hok as [Hok _].
    apply andb_true_iff in Hok as [_ Hok].
    by rewrite (has_letter_substring r t Hsub Hok) in Hl.
Qed.

(** X25.  In [src/unnamed/part_000], whenever the model was asked and its
    reply decodes to a falsy value (the absent marker, but also [false],
    zero or the empty string), the answer is the 500 of the endpoint. *)
Theorem Part000_falsy_decode_answers_500 e P req_body w prompt reply x :
  let out := handler_of Part000Js e P req_body w in
  In (EvGenerate prompt) (new_events w (snd out)) ->
  generateContent P prompt = Normal reply ->
  Part000.extractJSON reply = Normal x ->
  truthy x = false ->
  fst out = Normal (error_response 500 (failure_message e)).
Proof.
  cbv zeta.
  destruct e; unfold handler_of, Part000.generate_questions, Part000.grade_answer,
    Part000.final_summary, failure_message; run; branches; steps;
    rewrite ?new_events_same, ?new_events_app;
    intros Hin Hreply Hx Ht; cbn [In] in Hin; try done;
    destruct Hin as [[= <-]|[]]; try congruence.
  all: match goal with
       | H1 : generateContent ?Q ?p = Normal ?a, H2 : generateContent ?Q ?p = Normal ?b,
         H3 : Part000.extractJSON ?a = Normal ?y,
         H5 : Part000.extractJSON ?b = Normal ?z,
         H4 : negb (truthy ?y) = false, H6 : truthy ?z = false |- _ =>
           rewrite H1 in H2; injection H2 as ->; rewrite H5 in H3;
           injection H3 as <-; rewrite H6 in H4; discriminate H4
       end.
Qed.

(** X25 (witness).  grade-answer with a model that replies [false]. *)
Lemma Part000_falsy_decode_answers_500_witness :
  fst (handler_of Part000Js GradeAnswer
         (example_platform (Throw (External 1)) (js "false")) grade_body staged_world)
  = Normal (error_response 500 (failure_message GradeAnswer)).
Proof.
  apply (Part000_falsy_decode_answers_500 GradeAnswer
           (example_platform (Throw (External 1)) (js "false")) grade_body staged_world
           (Part000.grading_prompt (js "What is a closure?")
              (js "A function with its scope."))
           (js "false") (VBool false)).
  - vm_compute. left. reflexivity.
  - reflexivity.
  - vm_compute. reflexivity.
  - reflexivity.
Defined.
